(** * llama-parse: the LlamaParse client of [src/index.ts]

    A shallow embedding of the client class and its four operations.

    - JavaScript values that the client touches are JSON documents (what
      [response.json()] resolves with) and [undefined].  The conversion
      to a string that a template literal applies is partial: it throws
      on an object that has an own [toString] property.
    - An object used as a string-keyed record ([this.headers]) is a [gmap].
    - [fetch] and [setTimeout] are the only effects.  A computation threads
      a [World] that holds the remote server (the answer it gives to the
      k-th request) and the trace of effects performed so far.  [await] is
      sequencing; a rejected promise is a thrown exception.
    - The [do ... while] loop of [parseFile] has no bound in the source; it
      is embedded with a fuel argument, and running out of fuel is a third
      outcome, distinct from returning and from throwing. *)

From Stdlib Require Import Lia Ascii.
From stdpp Require Import base option list strings gmap pretty.

Set Warnings "-register-all".

(** ** JavaScript values *)

Module JS.

(** A parsed JSON document.  A number is carried as the text that
    [Number.prototype.toString] gives for it: the client never computes
    with numbers, it only interpolates values into strings.  The fields
    of [JObj] are the own properties of the parsed object, one per name. *)
Inductive JSON : Type :=
| JNull
| JBool (b : bool)
| JNum (repr : string)
| JStr (s : string)
| JArr (elems : list JSON)
| JObj (fields : list (string * JSON)).

(** What a property access or a variable can hold. *)
Inductive Value : Type :=
| VUndefined
| VJson (j : JSON).

(** What a [throw] or a rejected promise carries.  [Error] is the only
    class the source constructs itself; [TypeError] and [SyntaxError] are
    raised by the runtime (property access on [null], a failed [fetch], a
    body that is not JSON). *)
Inductive Exn : Type :=
| Error (message : string)
| TypeError
| SyntaxError.

(** The object has an own property named [k], whatever its value. *)
Fixpoint hasOwn (k : string) (fields : list (string * JSON)) : bool :=
  match fields with
  | [] => false
  | (k', _) :: rest => String.eqb k k' || hasOwn k rest
  end.

(** [ToString] on a JSON document, as a template literal applies it.

    An object goes through [OrdinaryToPrimitive]: an own [toString]
    property of a parsed object is never a function and hides the
    inherited one, and the inherited [valueOf] returns the object, so the
    conversion throws a type error; without an own [toString] the
    inherited one gives ["[object Object]"].

    An array goes through [Array.prototype.join(",")]: elements are
    converted from left to right, [null] gives the empty string, and a
    conversion that throws makes the whole conversion throw. *)
Fixpoint toStringJSON (j : JSON) : Exn + string :=
  match j with
  | JNull => inr "null"
  | JBool true => inr "true"
  | JBool false => inr "false"
  | JNum repr => inr repr
  | JStr s => inr s
  | JArr elems =>
      (fix joinElems (l : list JSON) : Exn + string :=
         match l with
         | [] => inr ""
         | e :: rest =>
             match (match e with
                    | JNull => inr ""
                    | _ => toStringJSON e
                    end) with
             | inl x => inl x
             | inr s =>
                 match rest with
                 | [] => inr s
                 | _ :: _ =>
                     match joinElems rest with
                     | inl x => inl x
                     | inr r => inr (s +:+ "," +:+ r)
                     end
                 end
             end
         end) elems
  | JObj fields =>
      if hasOwn "toString" fields then inl TypeError
      else inr "[object Object]"
  end.

Definition toString (v : Value) : Exn + string :=
  match v with
  | VUndefined => inr "undefined"
  | VJson j => toStringJSON j
  end.

(** The own property [k] among the fields of an object. *)
Fixpoint field (k : string) (fields : list (string * JSON)) : Value :=
  match fields with
  | [] => VUndefined
  | (k', j) :: rest => if String.eqb k k' then VJson j else field k rest
  end.

(** [j.k] for a property name [k] that no built-in prototype defines
    ([id], [status], [error]): a type error on [null], the own property on
    an object, [undefined] on every other document. *)
Definition getProp (j : JSON) (k : string) : Exn + Value :=
  match j with
  | JNull => inl TypeError
  | JObj fields => inr (field k fields)
  | _ => inr VUndefined
  end.

(** [v === s] for a string literal [s]. *)
Definition strictEqStr (v : Value) (s : string) : bool :=
  match v with
  | VJson (JStr s') => String.eqb s' s
  | _ => false
  end.

(** Truthiness of an optional string ([!x], [x || d]). *)
Definition truthy (s : option string) : bool :=
  match s with
  | Some s' => negb (String.eqb s' "")
  | None => false
  end.

(** A property value of a plain object built by the client: a string, or
    an array of strings (what spreading an array of pairs leaves). *)
Inductive Prop_value : Type :=
| PStr (s : string)
| PArr (elems : list string).

End JS.
Import JS.

(** ** Configuration *)

(** [HeadersInit] of the platform:
    [Headers | [string, string][] | Record<string, string>]. *)
Inductive HeadersInit : Type :=
| HeadersRecord (r : gmap string string)
| HeadersPairs (pairs : list (string * string))
| HeadersObject (entries : list (string * string)).

Record LlamaParseConfig : Type := {
  apiKey : option string;
  baseUrl : option string;
  headers : option HeadersInit
}.

(** The client object: its two private fields. *)
Record LlamaParse : Type := {
  this_baseUrl : string;
  this_headers : gmap string Prop_value
}.

Definition defaultBaseUrl : string := "https://api.cloud.llamaindex.ai/api/parsing".

(** Own enumerable string-keyed properties of the elements of an array,
    starting at index [i]: the index, in decimal, maps to the element. *)
Fixpoint indexProps (i : nat) (pairs : list (string * string)) : gmap string Prop_value :=
  match pairs with
  | [] => ∅
  | (name, value) :: rest => <[pretty i := PArr [name; value]]> (indexProps (S i) rest)
  end.

(** What [...h] copies into an object literal: the own enumerable
    properties of [h].  A record has its entries; an array has its indices;
    a [Headers] instance keeps its list in an internal slot and has none;
    [undefined] has none. *)
Definition ownEnumerable (h : option HeadersInit) : gmap string Prop_value :=
  match h with
  | None => ∅
  | Some (HeadersRecord r) => PStr <$> r
  | Some (HeadersPairs pairs) => indexProps 0 pairs
  | Some (HeadersObject _) => ∅
  end.

(** [{ Authorization: `Bearer ${apiKey}`, accept: "application/json" }] *)
Definition defaultHeaders (key : string) : gmap string Prop_value :=
  <["Authorization" := PStr ("Bearer " +:+ key)]>
    (<["accept" := PStr "application/json"]> ∅).

(** [{ ...defaults, ...spread }]: a later property replaces an earlier one
    of the same name. *)
Definition spreadOver (defaults spread : gmap string Prop_value) : gmap string Prop_value :=
  spread ∪ defaults.

(** [new LlamaParse(config)] *)
Definition construct (config : LlamaParseConfig) : Exn + LlamaParse :=
  if negb (truthy (apiKey config)) then inl (Error "API key is required")
  else
    inr {| this_baseUrl :=
             if truthy (baseUrl config) then default "" (baseUrl config)
             else defaultBaseUrl;
           this_headers :=
             spreadOver (defaultHeaders (default "" (apiKey config)))
                        (ownEnumerable (headers config)) |}.

(** ** The network and the timer *)

(** A [Response], as far as the client reads it.  [body] is what
    [response.json()] parses, or [None] when the payload is not JSON. *)
Record Response : Type := {
  status : nat;
  statusText : string;
  body : option JSON
}.

(** [response.ok]: the status is in the range 200-299. *)
Definition ok (r : Response) : bool :=
  (200 <=? status r) && (status r <=? 299).

Definition Blob : Type := list Byte.byte.

(** The second argument of [fetch].  An absent [method] means [GET]. *)
Record RequestInit : Type := {
  method : option string;
  init_headers : gmap string Prop_value;
  init_body : option (list (string * Blob))
}.

Definition effectiveMethod (init : RequestInit) : string :=
  default "GET" (method init).

(** One observable effect: a request together with the answer it got
    ([None]: the request failed at the network level), or a timer. *)
Inductive Event : Type :=
| EFetch (url : string) (init : RequestInit) (answer : option Response)
| ESleep (ms : nat).

(** The server is the sequence of its answers: [server w k] answers the
    k-th request made.  The client is sequential and reads nothing of the
    server but its answers, so every server, for one run, is such a
    sequence. *)
Record World : Type := {
  server : nat -> option Response;
  served : nat;
  trace : list Event
}.

Inductive Outcome (A : Type) : Type :=
| Returns (a : A)
| Throws (e : Exn)
| Unsettled.
Arguments Returns {A} a.
Arguments Throws {A} e.
Arguments Unsettled {A}.

Definition M (A : Type) : Type := World -> Outcome A * World.

Definition ret {A} (a : A) : M A := fun w => (Returns a, w).

Definition throw {A} (e : Exn) : M A := fun w => (Throws e, w).

Definition bind {A B} (m : M A) (k : A -> M B) : M B := fun w =>
  match m w with
  | (Returns a, w') => k a w'
  | (Throws e, w') => (Throws e, w')
  | (Unsettled, w') => (Unsettled, w')
  end.

Notation "'let!' x ':=' m 'in' k" := (bind m (fun x => k))
  (at level 10, x name, m at level 100, k at level 200).

Definition lift {A} (r : Exn + A) : M A :=
  match r with
  | inl e => throw e
  | inr a => ret a
  end.

Definition record (e : Event) (w : World) : World :=
  {| server := server w; served := served w; trace := trace w ++ [e] |}.

(** The world once the next request has been made and answered. *)
Definition fetched (url : string) (init : RequestInit) (w : World) : World :=
  {| server := server w;
     served := S (served w);
     trace := trace w ++ [EFetch url init (server w (served w))] |}.

(** [await fetch(url, init)] *)
Definition fetch (url : string) (init : RequestInit) : M Response := fun w =>
  match server w (served w) with
  | Some r => (Returns r, fetched url init w)
  | None => (Throws TypeError, fetched url init w)
  end.

(** [await new Promise((resolve) => setTimeout(resolve, ms))] *)
Definition sleep (ms : nat) : M unit := fun w => (Returns tt, record (ESleep ms) w).

(** [await response.json()] *)
Definition json (r : Response) : M JSON :=
  match body r with
  | Some j => ret j
  | None => throw SyntaxError
  end.

(** ** The operations of the client *)

Section Operations.

Variable this : LlamaParse.

Definition uploadUrl : string := this_baseUrl this +:+ "/upload".

(** The two job URLs, for a job id already converted to the string [id]. *)
Definition statusUrl (id : string) : string :=
  this_baseUrl this +:+ "/job/" +:+ id.

Definition resultUrl (id : string) : string :=
  this_baseUrl this +:+ "/job/" +:+ id +:+ "/result/markdown".

Definition uploadInit (file : Blob) : RequestInit :=
  {| method := Some "POST";
     init_headers := this_headers this;
     init_body := Some [("file", file)] |}.

Definition getInit : RequestInit :=
  {| method := None; init_headers := this_headers this; init_body := None |}.

Definition uploadFile (file : Blob) : M Value :=
  let! response := fetch uploadUrl (uploadInit file) in
  if negb (ok response) then
    throw (Error ("Upload failed: " +:+ statusText response))
  else
    let! data := json response in
    lift (getProp data "id").

(** The template literal of the URL converts [jobId] to a string before
    [fetch] is called; a conversion that throws makes the call throw. *)
Definition checkStatus (jobId : Value) : M JSON :=
  let! id := lift (toString jobId) in
  let! response := fetch (statusUrl id) getInit in
  if negb (ok response) then
    throw (Error ("Status check failed: " +:+ statusText response))
  else
    json response.

Definition getMarkdownResult (jobId : Value) : M JSON :=
  let! id := lift (toString jobId) in
  let! response := fetch (resultUrl id) getInit in
  if negb (ok response) then
    throw (Error ("Failed to get results: " +:+ statusText response))
  else
    json response.

(** The [do { ... } while (status.status === "PENDING")] loop: at most
    [fuel] iterations. *)
Fixpoint poll (fuel : nat) (jobId : Value) : M JSON :=
  match fuel with
  | 0 => fun w => (Unsettled, w)
  | S fuel' =>
      let! status := checkStatus jobId in
      let! _ := sleep 1000 in
      let! state := lift (getProp status "status") in
      if strictEqStr state "PENDING" then poll fuel' jobId
      else ret status
  end.

Definition parseFile (fuel : nat) (file : Blob) : M JSON :=
  let! jobId := uploadFile file in
  let! status := poll fuel jobId in
  let! state := lift (getProp status "status") in
  if negb (strictEqStr state "SUCCESS") then
    let! error := lift (getProp status "error") in
    let! text := lift (toString error) in
    throw (Error ("Parsing failed: " +:+ text))
  else
    getMarkdownResult jobId.

End Operations.

(** ** The kinds of failure

    The source throws the one class [Error]; the kinds differ by the
    message built at each [throw]. *)

Definition ConfigError : Exn := Error "API key is required".
Definition UploadError (text : string) : Exn := Error ("Upload failed: " +:+ text).
Definition StatusCheckError (text : string) : Exn := Error ("Status check failed: " +:+ text).
Definition ResultFetchError (text : string) : Exn := Error ("Failed to get results: " +:+ text).
Definition ParseFailedError (text : string) : Exn := Error ("Parsing failed: " +:+ text).

(** The message of [e] has [text] as a substring. *)
Definition mentions (e : Exn) (text : string) : Prop :=
  exists pre post, e = Error (pre +:+ text +:+ post).

(** The status of the response is in the 2xx range. *)
Definition is2xx (r : Response) : Prop := 200 <= status r /\ status r <= 299.

(** ** Servers, answers and traces *)

(** A server that gives the listed answers in order and is unreachable
    afterwards. *)
Definition script (answers : list Response) : nat -> option Response :=
  fun k => answers !! k.

(** The world before the first request. *)
Definition boot (srv : nat -> option Response) : World :=
  {| server := srv; served := 0; trace := [] |}.

(** What a request-then-decode does, by cases on the answer. *)
Definition settle {A} (failure : string -> Exn) (decode : JSON -> Exn + A)
    (answer : option Response) : Outcome A :=
  match answer with
  | None => Throws TypeError
  | Some r =>
      if ok r then
        match body r with
        | None => Throws SyntaxError
        | Some data =>
            match decode data with
            | inl e => Throws e
            | inr a => Returns a
            end
        end
      else Throws (failure (statusText r))
  end.

(** The answer is a 2xx response whose body parses to [data]. *)
Definition answers_with (answer : option Response) (data : JSON) : Prop :=
  exists r, answer = Some r /\ is2xx r /\ body r = Some data.

(** The [status] field of [data] is the string [s]. *)
Definition reports (data : JSON) (s : string) : Prop :=
  getProp data "status" = inr (VJson (JStr s)).

(** Number of requests in [t] that were sent to [url]. *)
Fixpoint requestsTo (url : string) (t : list Event) : nat :=
  match t with
  | [] => 0
  | EFetch u _ _ :: rest => (if String.eqb u url then 1 else 0) + requestsTo url rest
  | ESleep _ :: rest => requestsTo url rest
  end.

Section Vocabulary.

Variable this : LlamaParse.

(** [m] turns of the loop, the first of which makes request number
    [from]: a status request, then the one-second timer. *)
Fixpoint rounds (id : string) (srv : nat -> option Response) (from m : nat)
    : list Event :=
  match m with
  | 0 => []
  | S m' =>
      EFetch (statusUrl this id) (getInit this) (srv from)
        :: ESleep 1000
        :: rounds id srv (S from) m'
  end.

(** The world when the loop has ended after [n] pending answers. *)
Definition polled (file : Blob) (id : string) (n : nat) (w : World) : World :=
  {| server := server w;
     served := served w + n + 2;
     trace := trace w
                ++ EFetch (uploadUrl this) (uploadInit this file) (server w (served w))
                :: rounds id (server w) (S (served w)) (S n) |}.

(** An event of the loop or of the result fetch for the job id [id]. *)
Definition for_job (id : string) (e : Event) : Prop :=
  match e with
  | ESleep ms => ms = 1000
  | EFetch u init _ =>
      (u = statusUrl this id \/ u = resultUrl this id) /\ init = getInit this
  end.

End Vocabulary.

(** The upload is accepted with a body whose [id] is [jobId]. *)
Definition accepted_as (w : World) (jobId : Value) : Prop :=
  exists up, answers_with (server w (served w)) up /\ getProp up "id" = inr jobId.

(** The upload is accepted with job id [jobId], which a template literal
    converts to the string [id]; the next [n] status answers are pending,
    and the one after has a [status] other than pending. *)
Definition settles_after (w : World) (jobId : Value) (id : string) (n : nat)
    (final : JSON) (state : Value) : Prop :=
  (accepted_as w jobId /\ toString jobId = inr id) /\
  (forall k, k < n -> exists data,
      answers_with (server w (served w + 1 + k)) data /\ reports data "PENDING") /\
  answers_with (server w (served w + 1 + n)) final /\
  getProp final "status" = inr state /\
  strictEqStr state "PENDING" = false.

(** [checkStatus] returns on this answer. *)
Definition usable (answer : option Response) : bool :=
  match answer with
  | Some r => ok r && match body r with Some _ => true | None => false end
  | None => false
  end.

(** Every status request to [url] that got a usable answer is directly
    followed by the one-second timer. *)
Fixpoint delayed (url : string) (t : list Event) : bool :=
  match t with
  | [] => true
  | EFetch u _ answer :: rest =>
      (if String.eqb u url && usable answer
       then match rest with
            | ESleep ms :: _ => Nat.eqb ms 1000
            | _ => false
            end
       else true)
      && delayed url rest
  | ESleep _ :: rest => delayed url rest
  end.


Definition returned {A} (o : Outcome A) : bool :=
  match o with
  | Returns _ => true
  | _ => false
  end.

(** The guard that C8 describes: with an empty or a missing id, a parse
    makes no status request and no result request for it. *)
Definition proceeds_only_with_id (this : LlamaParse) (fuel : nat) (file : Blob)
    (w : World) : Prop :=
  forall jobId id,
    fst (uploadFile this file w) = Returns jobId ->
    jobId = VUndefined \/ jobId = VJson (JStr "") ->
    toString jobId = inr id ->
    requestsTo (statusUrl this id) (trace (snd (parseFile this fuel file w))) = 0 /\
    requestsTo (resultUrl this id) (trace (snd (parseFile this fuel file w))) = 0.


(** ** Sample data *)

Definition sampleClient : LlamaParse :=
  {| this_baseUrl := "https://example.test/api"; this_headers := defaultHeaders "k" |}.

Definition unavailable : Response :=
  {| status := 503; statusText := "Service Unavailable"; body := None |}.

Definition okJson (data : JSON) : Response :=
  {| status := 200; statusText := "OK"; body := Some data |}.

Definition failedScan : JSON :=
  JObj [("status", JStr "FAILED"); ("error", JStr "bad scan")].

Definition sampleResult : JSON :=
  JObj [("markdown", JStr "# Title");
        ("job_metadata",
         JObj [("credits_used", JNum "3");
               ("job_credits_usage", JNum "3");
               ("job_pages", JNum "1");
               ("job_auto_mode_triggered_pages", JNum "0");
               ("job_is_cache_hit", JBool false);
               ("credits_max", JNum "1000")])].

Definition jobJson (state : string) : JSON := JObj [("status", JStr state)].

(** The server of the polling scenario: the upload is accepted as
    [job-1], two status answers are pending, the third is SUCCESS, and the
    result is served. *)
Definition twicePending : nat -> option Response :=
  script [okJson (JObj [("status", JStr "PENDING"); ("id", JStr "job-1")]);
          okJson (jobJson "PENDING");
          okJson (jobJson "PENDING");
          okJson (jobJson "SUCCESS");
          okJson sampleResult].

(** An upload answered with [{ id: "" }], then SUCCESS, then the result. *)
Definition emptyIdServer : nat -> option Response :=
  script [okJson (JObj [("status", JStr "PENDING"); ("id", JStr "")]);
          okJson (jobJson "SUCCESS");
          okJson sampleResult].

(** An upload accepted as [job-1], one pending answer, then a status
    request that the server rejects. *)
Definition rejectingServer : nat -> option Response :=
  script [okJson (JObj [("id", JStr "job-1")]);
          okJson (jobJson "PENDING");
          unavailable].

(** An upload answered without an [id], then SUCCESS, then the result. *)
Definition missingIdServer : nat -> option Response :=
  script [okJson (JObj [("status", JStr "PENDING")]);
          okJson (jobJson "SUCCESS");
          okJson sampleResult].

(** ** Vocabulary for further properties *)

(** Total time, in milliseconds, of the timers in [t]. *)
Fixpoint slept (t : list Event) : nat :=
  match t with
  | [] => 0
  | ESleep ms :: rest => ms + slept rest
  | EFetch _ _ _ :: rest => slept rest
  end.

(** The event, when a request, carries the headers [hs]. *)
Definition carries (hs : gmap string Prop_value) (e : Event) : Prop :=
  match e with
  | EFetch _ init _ => init_headers init = hs
  | ESleep _ => True
  end.

(** The upload is accepted with job id [jobId], which a template literal
    converts to the string [id], and the next [n] status answers are
    pending. *)
Definition pending_for (w : World) (jobId : Value) (id : string) (n : nat) : Prop :=
  (accepted_as w jobId /\ toString jobId = inr id) /\
  (forall k, k < n -> exists data,
      answers_with (server w (served w + 1 + k)) data /\ reports data "PENDING").

(** A server that accepts the upload as [job-1] and answers PENDING to
    every request after it. *)
Definition alwaysPending : nat -> option Response :=
  fun k =>
    match k with
    | 0 => Some (okJson (JObj [("status", JStr "PENDING"); ("id", JStr "job-1")]))
    | S _ => Some (okJson (jobJson "PENDING"))
    end.

(** The event, when a request, carries the default headers made from
    the API key [key]. *)
Definition authorized (key : string) (e : Event) : Prop :=
  match e with
  | EFetch _ init _ =>
      init_headers init !! "Authorization" = Some (PStr ("Bearer " +:+ key)) /\
      init_headers init !! "accept" = Some (PStr "application/json")
  | ESleep _ => True
  end.

(** The event, when a request, goes to a URL under [base]. *)
Definition targets (base : string) (e : Event) : Prop :=
  match e with
  | EFetch u _ _ => exists path, u = base +:+ path
  | ESleep _ => True
  end.

(** * Properties *)

(** ** Strings and tests *)

Lemma append_empty_r (s : string) : s +:+ "" = s.
Proof.
  induction s as [|a s IH]; [reflexivity |].
  change (String a (s +:+ "") = String a s). now rewrite IH.
Qed.

Lemma append_cancel_l (a b c : string) : a +:+ b = a +:+ c -> b = c.
Proof. apply (inj (String.app a)). Qed.

Lemma mentions_suffix (pre text : string) : mentions (Error (pre +:+ text)) text.
Proof. exists pre, "". now rewrite append_empty_r. Qed.

Lemma ok_true_iff (r : Response) : ok r = true <-> is2xx r.
Proof.
  unfold ok, is2xx. rewrite andb_true_iff, !Nat.leb_le. reflexivity.
Qed.

Lemma ok_false_iff (r : Response) : ok r = false <-> ~ is2xx r.
Proof.
  rewrite <- ok_true_iff. destruct (ok r); split; intros H; congruence.
Qed.

Lemma truthy_Some (s : string) : truthy (Some s) = true <-> s <> "".
Proof.
  simpl. rewrite negb_true_iff. split.
  - intros H ->. discriminate.
  - intros H. destruct (String.eqb_spec s ""); congruence.
Qed.

(** ** Construction *)

Section Construction.

Implicit Types (config : LlamaParseConfig) (key : string).

Lemma construct_fails config :
  truthy (apiKey config) = false -> construct config = inl ConfigError.
Proof. unfold construct. now intros ->. Qed.

Lemma construct_succeeds config key :
  apiKey config = Some key -> key <> "" ->
  construct config =
    inr {| this_baseUrl :=
             if truthy (baseUrl config) then default "" (baseUrl config)
             else defaultBaseUrl;
           this_headers :=
             spreadOver (defaultHeaders key) (ownEnumerable (headers config)) |}.
Proof.
  intros Hkey Hne. unfold construct. rewrite Hkey.
  apply truthy_Some in Hne. now rewrite Hne.
Qed.

(** A caller's record of headers: every name the caller gives maps to the
    caller's value, every other name keeps its default. *)
Lemma spread_record_lookup (defaults : gmap string Prop_value) (r : gmap string string) name :
  spreadOver defaults (ownEnumerable (Some (HeadersRecord r))) !! name =
    match r !! name with
    | Some value => Some (PStr value)
    | None => defaults !! name
    end.
Proof.
  unfold spreadOver. simpl. rewrite lookup_union, lookup_fmap.
  destruct (r !! name) as [value|]; simpl.
  - now destruct (defaults !! name).
  - now destruct (defaults !! name).
Qed.

(** A [Headers] instance contributes nothing to the spread. *)
Lemma spread_headers_object (defaults : gmap string Prop_value) entries :
  spreadOver defaults (ownEnumerable (Some (HeadersObject entries))) = defaults.
Proof. unfold spreadOver. simpl. apply (left_id_L ∅ (∪)). Qed.

End Construction.

(** C3.  A configuration whose API key is absent or the empty string makes
    the constructor throw the configuration error; a configuration with a
    non-empty API key constructs a client. *)
Theorem construct_apiKey_required (config : LlamaParseConfig) :
  (apiKey config = None \/ apiKey config = Some "" ->
   construct config = inl ConfigError) /\
  (forall key, apiKey config = Some key -> key <> "" ->
   exists client, construct config = inr client).
Proof.
  split.
  - intros [H | H]; apply construct_fails; rewrite H; reflexivity.
  - intros key Hkey Hne. eexists. apply (construct_succeeds _ key); assumption.
Qed.

Lemma construct_apiKey_required_witness :
  construct {| apiKey := None; baseUrl := None; headers := None |} = inl ConfigError /\
  construct {| apiKey := Some ""; baseUrl := None; headers := None |} = inl ConfigError /\
  exists client,
    construct {| apiKey := Some "llx-key"; baseUrl := None; headers := None |} = inr client.
Proof.
  split; [| split].
  - apply (proj1 (construct_apiKey_required
                    {| apiKey := None; baseUrl := None; headers := None |})).
    left. reflexivity.
  - apply (proj1 (construct_apiKey_required
                    {| apiKey := Some ""; baseUrl := None; headers := None |})).
    right. reflexivity.
  - apply (proj2 (construct_apiKey_required
                    {| apiKey := Some "llx-key"; baseUrl := None; headers := None |})
             "llx-key"); [reflexivity | discriminate].
Defined.

(** C9.  With a usable API key, a base URL given as the empty string
    yields the default base URL, and the client is the one constructed
    when the base URL is omitted. *)
Theorem construct_empty_baseUrl (config : LlamaParseConfig) (key : string) :
  apiKey config = Some key -> key <> "" ->
  baseUrl config = Some "" ->
  exists client,
    construct config = inr client /\
    this_baseUrl client = "https://api.cloud.llamaindex.ai/api/parsing" /\
    construct {| apiKey := apiKey config; baseUrl := None; headers := headers config |}
      = inr client.
Proof.
  intros Hkey Hne Hbase. eexists. split; [| split].
  - apply (construct_succeeds _ key); assumption.
  - simpl. now rewrite Hbase.
  - rewrite (construct_succeeds _ key); [| exact Hkey | exact Hne].
    simpl. now rewrite Hbase.
Qed.

Lemma construct_empty_baseUrl_witness :
  exists client,
    construct {| apiKey := Some "llx-key"; baseUrl := Some ""; headers := None |}
      = inr client /\
    this_baseUrl client = "https://api.cloud.llamaindex.ai/api/parsing" /\
    construct {| apiKey := Some "llx-key"; baseUrl := None; headers := None |}
      = inr client.
Proof.
  apply (construct_empty_baseUrl
           {| apiKey := Some "llx-key"; baseUrl := Some ""; headers := None |}
           "llx-key"); [reflexivity | discriminate | reflexivity].
Defined.

(** *** Caller-supplied headers *)

(** For a caller's plain record of headers the merge gives the caller's
    value on every name the caller supplies, and the default elsewhere;
    every request of the client then carries the merged record. *)
Lemma construct_headers_record (config : LlamaParseConfig) (key : string)
    (r : gmap string string) :
  apiKey config = Some key -> key <> "" ->
  headers config = Some (HeadersRecord r) ->
  exists client,
    construct config = inr client /\
    (forall name value, r !! name = Some value ->
       this_headers client !! name = Some (PStr value)) /\
    (forall name, r !! name = None ->
       this_headers client !! name = defaultHeaders key !! name) /\
    (forall file, init_headers (uploadInit client file) = this_headers client) /\
    init_headers (getInit client) = this_headers client.
Proof.
  intros Hkey Hne Hh. eexists. split.
  { apply (construct_succeeds _ key); assumption. }
  simpl. rewrite Hh. repeat split.
  - intros name value Hr. now rewrite spread_record_lookup, Hr.
  - intros name Hr. now rewrite spread_record_lookup, Hr.
Qed.

Lemma construct_authorization_record (key custom : string) (r : gmap string string) :
  key <> "" -> r !! "Authorization" = Some custom ->
  exists client,
    construct {| apiKey := Some key; baseUrl := None;
                 headers := Some (HeadersRecord r) |} = inr client /\
    this_headers client !! "Authorization" = Some (PStr custom).
Proof.
  intros Hne Hr.
  destruct (construct_headers_record
              {| apiKey := Some key; baseUrl := None;
                 headers := Some (HeadersRecord r) |} key r)
    as (client & Hc & Hset & _); [reflexivity | exact Hne | reflexivity |].
  exists client. split; [exact Hc |]. now apply Hset.
Qed.

(** A [Headers] instance given as [headers] is dropped: the client keeps
    the default headers only. *)
Lemma construct_headers_object (key : string) (entries : list (string * string)) :
  key <> "" ->
  construct {| apiKey := Some key; baseUrl := None;
               headers := Some (HeadersObject entries) |}
    = inr {| this_baseUrl := defaultBaseUrl; this_headers := defaultHeaders key |}.
Proof.
  intros Hne. rewrite (construct_succeeds _ key); [| reflexivity | exact Hne].
  cbn [headers baseUrl truthy]. now rewrite spread_headers_object.
Qed.

(** C4, at a configuration where it fails.  The caller supplies
    [headers: [["Authorization", "Custom token"]]], the array form of
    [HeadersInit].  The spread copies the array's index, so the client
    keeps the default bearer value under [Authorization] and gains one
    property named [0]. *)
Theorem construct_headers_pairs_keep_default :
  exists client,
    construct {| apiKey := Some "k"; baseUrl := None;
                 headers := Some (HeadersPairs [("Authorization", "Custom token")]) |}
      = inr client /\
    this_headers client !! "Authorization" = Some (PStr "Bearer k") /\
    this_headers client !! "0" = Some (PArr ["Authorization"; "Custom token"]) /\
    init_headers (getInit client) !! "Authorization" = Some (PStr "Bearer k").
Proof.
  eexists. split; [reflexivity |]. repeat split; vm_compute; reflexivity.
Qed.

(** ** The three requests, one at a time *)

Section Requests.

Variable this : LlamaParse.

Lemma uploadFile_run file w :
  uploadFile this file w =
    (settle UploadError (fun data => getProp data "id") (server w (served w)),
     fetched (uploadUrl this) (uploadInit this file) w).
Proof.
  unfold uploadFile, bind, fetch, settle, json, lift, throw, ret, UploadError.
  destruct (server w (served w)) as [r|]; [| reflexivity].
  destruct (ok r); simpl; [| reflexivity].
  destruct (body r) as [data|]; [| reflexivity].
  unfold bind. simpl. now destruct (getProp data "id").
Qed.

Lemma checkStatus_run jobId id w :
  toString jobId = inr id ->
  checkStatus this jobId w =
    (settle StatusCheckError inr (server w (served w)),
     fetched (statusUrl this id) (getInit this) w).
Proof.
  intros Hid. unfold checkStatus. unfold bind at 1. rewrite Hid.
  unfold lift, ret, bind, fetch, settle, json, throw, ret, StatusCheckError.
  destruct (server w (served w)) as [r|]; [| reflexivity].
  destruct (ok r); simpl; [| reflexivity].
  now destruct (body r).
Qed.

Lemma getMarkdownResult_run jobId id w :
  toString jobId = inr id ->
  getMarkdownResult this jobId w =
    (settle ResultFetchError inr (server w (served w)),
     fetched (resultUrl this id) (getInit this) w).
Proof.
  intros Hid. unfold getMarkdownResult. unfold bind at 1. rewrite Hid.
  unfold lift, ret, bind, fetch, settle, json, throw, ret, ResultFetchError.
  destruct (server w (served w)) as [r|]; [| reflexivity].
  destruct (ok r); simpl; [| reflexivity].
  now destruct (body r).
Qed.

(** A job id that the template literal cannot convert: the call throws
    before any request is made. *)
Lemma checkStatus_unrendered jobId e w :
  toString jobId = inl e -> checkStatus this jobId w = (Throws e, w).
Proof. intros Hid. unfold checkStatus, bind. now rewrite Hid. Qed.

Lemma getMarkdownResult_unrendered jobId e w :
  toString jobId = inl e -> getMarkdownResult this jobId w = (Throws e, w).
Proof. intros Hid. unfold getMarkdownResult, bind. now rewrite Hid. Qed.

Lemma settle_not_2xx {A} failure (decode : JSON -> Exn + A) r :
  ~ is2xx r -> settle failure decode (Some r) = Throws (failure (statusText r)).
Proof. intros H%ok_false_iff. unfold settle. now rewrite H. Qed.

Lemma settle_2xx {A} failure (decode : JSON -> Exn + A) r data a :
  is2xx r -> body r = Some data -> decode data = inr a ->
  settle failure decode (Some r) = Returns a.
Proof.
  intros H%ok_true_iff Hb Hd. unfold settle. now rewrite H, Hb, Hd.
Qed.

End Requests.

(** C5.  Whatever the server answers to the upload request: outside 2xx,
    [uploadFile] throws the upload error, whose message contains the
    status text of the response; on 2xx with a JSON object as body, it
    returns exactly the value of the object's [id] property, wherever that
    property stands among the others. *)
Theorem uploadFile_by_response (this : LlamaParse) (file : Blob) (w : World)
    (r : Response) :
  server w (served w) = Some r ->
  (~ is2xx r ->
     fst (uploadFile this file w) = Throws (UploadError (statusText r)) /\
     mentions (UploadError (statusText r)) (statusText r)) /\
  (is2xx r -> forall before v after,
     body r = Some (JObj (before ++ ("id", v) :: after)) ->
     Forall (fun property => fst property <> "id") before ->
     fst (uploadFile this file w) = Returns (VJson v)).
Proof.
  intros Hr. rewrite uploadFile_run, Hr. cbn [fst]. split.
  - intros H. split; [now apply settle_not_2xx | apply mentions_suffix].
  - intros H before v after Hb Hother.
    apply (settle_2xx _ _ _ (JObj (before ++ ("id", v) :: after))); [exact H | exact Hb |].
    cbn [getProp]. f_equal. clear Hb.
    induction Hother as [|[k x] before Hk Hother IH]; cbn [app field].
    + reflexivity.
    + cbn [fst] in Hk. destruct (String.eqb_spec "id" k) as [E|_]; [congruence | exact IH].
Qed.

Lemma uploadFile_by_response_witness :
  fst (uploadFile sampleClient [] (boot (script [unavailable])))
    = Throws (Error "Upload failed: Service Unavailable") /\
  fst (uploadFile sampleClient []
         (boot (script [okJson (JObj [("status", JStr "PENDING"); ("id", JStr "job-1")])])))
    = Returns (VJson (JStr "job-1")).
Proof.
  split.
  - apply (proj1 (uploadFile_by_response sampleClient [] (boot (script [unavailable]))
                    unavailable eq_refl)).
    unfold is2xx. simpl. lia.
  - refine (proj2 (uploadFile_by_response sampleClient []
                     (boot (script [okJson (JObj [("status", JStr "PENDING");
                                                  ("id", JStr "job-1")])]))
                     _ eq_refl) _ [("status", JStr "PENDING")] (JStr "job-1") []
                     eq_refl _).
    + unfold is2xx. simpl. lia.
    + constructor; [discriminate | constructor].
Defined.

(** C6.  Whatever the server answers to the status request for a job id
    [j]: on 2xx, [checkStatus] returns the parsed body itself, so its [status] and
    [error] fields are the server's, untouched; outside 2xx it throws the
    status-check error. *)
Theorem checkStatus_by_response (this : LlamaParse) (j : string) (w : World)
    (r : Response) :
  server w (served w) = Some r ->
  (is2xx r -> forall data, body r = Some data ->
     exists returned,
       fst (checkStatus this (VJson (JStr j)) w) = Returns returned /\
       returned = data /\
       getProp returned "status" = getProp data "status" /\
       getProp returned "error" = getProp data "error") /\
  (~ is2xx r ->
     fst (checkStatus this (VJson (JStr j)) w)
       = Throws (StatusCheckError (statusText r))).
Proof.
  intros Hr. rewrite (checkStatus_run this (VJson (JStr j)) j w eq_refl), Hr. cbn [fst]. split.
  - intros H data Hb. exists data. repeat split.
    now apply (settle_2xx _ _ _ data).
  - intros H. now apply settle_not_2xx.
Qed.

Lemma checkStatus_by_response_witness :
  fst (checkStatus sampleClient (VJson (JStr "job-1")) (boot (script [okJson failedScan])))
    = Returns failedScan /\
  fst (checkStatus sampleClient (VJson (JStr "job-1")) (boot (script [unavailable])))
    = Throws (Error "Status check failed: Service Unavailable").
Proof.
  split.
  - assert (H2 : is2xx (okJson failedScan)) by (unfold is2xx; simpl; lia).
    destruct (proj1 (checkStatus_by_response sampleClient "job-1"
                       (boot (script [okJson failedScan])) (okJson failedScan) eq_refl)
                H2 failedScan eq_refl)
      as (returned & Hret & -> & _).
    exact Hret.
  - refine (proj2 (checkStatus_by_response sampleClient "job-1"
                     (boot (script [unavailable])) _ eq_refl) _).
    unfold is2xx. simpl. lia.
Defined.

(** C7.  For a job id [j], [getMarkdownResult] makes exactly one request,
    a [GET] of [{baseUrl}/job/{j}/result/markdown] carrying the client's
    headers.  Outside 2xx it throws the result-fetch error, whose message
    contains the status text; on 2xx it returns the parsed body. *)
Theorem getMarkdownResult_by_response (this : LlamaParse) (j : string) (w : World) :
  (exists init,
     trace (snd (getMarkdownResult this (VJson (JStr j)) w)) =
       trace w ++ [EFetch (this_baseUrl this +:+ "/job/" +:+ j +:+ "/result/markdown")
                     init (server w (served w))] /\
     effectiveMethod init = "GET" /\
     init_headers init = this_headers this) /\
  (forall r, server w (served w) = Some r ->
     (~ is2xx r ->
        fst (getMarkdownResult this (VJson (JStr j)) w)
          = Throws (ResultFetchError (statusText r)) /\
        mentions (ResultFetchError (statusText r)) (statusText r)) /\
     (is2xx r -> forall data, body r = Some data ->
        fst (getMarkdownResult this (VJson (JStr j)) w) = Returns data)).
Proof.
  rewrite (getMarkdownResult_run this (VJson (JStr j)) j w eq_refl).
  cbn [fst snd fetched trace]. split.
  - exists (getInit this). repeat split.
  - intros r Hr. rewrite Hr. split.
    + intros H. split; [now apply settle_not_2xx | apply mentions_suffix].
    + intros H data Hb. now apply (settle_2xx _ _ _ data).
Qed.

Lemma getMarkdownResult_by_response_witness :
  fst (getMarkdownResult sampleClient (VJson (JStr "job-1")) (boot (script [unavailable])))
    = Throws (Error "Failed to get results: Service Unavailable") /\
  fst (getMarkdownResult sampleClient (VJson (JStr "job-1"))
         (boot (script [okJson sampleResult])))
    = Returns sampleResult.
Proof.
  split.
  - refine (proj1 (proj1 (proj2 (getMarkdownResult_by_response sampleClient "job-1"
                                   (boot (script [unavailable])))
                            unavailable eq_refl) _)).
    unfold is2xx. simpl. lia.
  - refine (proj2 (proj2 (getMarkdownResult_by_response sampleClient "job-1"
                            (boot (script [okJson sampleResult])))
                     (okJson sampleResult) eq_refl) _ sampleResult eq_refl).
    unfold is2xx. simpl. lia.
Defined.

(** ** Traces of a parse *)

Section Traces.

Variable this : LlamaParse.

(** A job id and the string a template literal converts it to. *)
Variable jobId : Value.
Variable id : string.
Hypothesis Hid : toString jobId = inr id.

Lemma settle_answers_with {A} failure (decode : JSON -> Exn + A) answer data a :
  answers_with answer data -> decode data = inr a ->
  settle failure decode answer = Returns a.
Proof.
  intros (r & -> & H2 & Hb) Hd. now apply (settle_2xx _ _ _ data).
Qed.

Lemma requestsTo_app url t1 t2 :
  requestsTo url (t1 ++ t2) = requestsTo url t1 + requestsTo url t2.
Proof.
  induction t1 as [|[u init a | ms] t1 IH]; simpl; [reflexivity | | exact IH].
  rewrite IH. lia.
Qed.

Lemma requestsTo_rounds_same srv from m :
  requestsTo (statusUrl this id) (rounds this id srv from m) = m.
Proof.
  revert from. induction m as [|m IH]; intros from; [reflexivity |].
  cbn [rounds requestsTo]. now rewrite String.eqb_refl, IH.
Qed.

Lemma requestsTo_rounds_other url srv from m :
  url <> statusUrl this id ->
  requestsTo url (rounds this id srv from m) = 0.
Proof.
  intros Hne. revert from. induction m as [|m IH]; intros from; [reflexivity |].
  cbn [rounds requestsTo]. rewrite IH.
  destruct (String.eqb_spec (statusUrl this id) url); [congruence | reflexivity].
Qed.

Lemma resultUrl_not_statusUrl : resultUrl this id <> statusUrl this id.
Proof.
  unfold resultUrl, statusUrl. intros H.
  apply append_cancel_l, append_cancel_l in H.
  rewrite <- (append_empty_r id) in H at 2.
  apply append_cancel_l in H. discriminate H.
Qed.

Lemma uploadUrl_not_statusUrl : uploadUrl this <> statusUrl this id.
Proof.
  unfold uploadUrl, statusUrl. intros H.
  apply append_cancel_l in H. discriminate H.
Qed.

Lemma uploadUrl_not_resultUrl : uploadUrl this <> resultUrl this id.
Proof.
  unfold uploadUrl, resultUrl. intros H.
  apply append_cancel_l in H. discriminate H.
Qed.

(** One turn of the loop on a usable answer. *)
Lemma poll_step fuel w data state :
  answers_with (server w (served w)) data ->
  getProp data "status" = inr state ->
  poll this (S fuel) jobId w =
    let w' := record (ESleep 1000) (fetched (statusUrl this id) (getInit this) w) in
    if strictEqStr state "PENDING" then poll this fuel jobId w'
    else (Returns data, w').
Proof.
  intros Ha Hs. cbn [poll]. unfold bind at 1. rewrite (checkStatus_run this jobId id w Hid).
  rewrite (settle_answers_with _ _ _ data data Ha eq_refl).
  unfold bind at 1. unfold sleep. unfold bind at 1. rewrite Hs. unfold lift, ret.
  cbn zeta. now destruct (strictEqStr state "PENDING").
Qed.

(** [n] pending answers, then a settled one: the loop takes [n + 1] turns
    and hands back the settled status. *)
Lemma poll_pending_then_settled n :
  forall fuel w final state,
    (forall k, k < n -> exists data,
        answers_with (server w (served w + k)) data /\ reports data "PENDING") ->
    answers_with (server w (served w + n)) final ->
    getProp final "status" = inr state ->
    strictEqStr state "PENDING" = false ->
    n < fuel ->
    poll this fuel jobId w =
      (Returns final,
       {| server := server w;
          served := served w + S n;
          trace := trace w ++ rounds this id (server w) (served w) (S n) |}).
Proof.
  induction n as [|n IH]; intros fuel w final state Hpend Hfin Hstate Hsettled Hfuel.
  - destruct fuel as [|fuel]; [lia |].
    rewrite Nat.add_0_r in Hfin.
    rewrite (poll_step _ _ final state Hfin Hstate). cbn zeta. rewrite Hsettled.
    unfold record, fetched. cbn [server served trace rounds].
    rewrite <- app_assoc. do 2 f_equal. lia.
  - destruct fuel as [|fuel]; [lia |].
    destruct (Hpend 0) as (data & Ha & Hp); [lia |].
    rewrite Nat.add_0_r in Ha.
    rewrite (poll_step _ _ data _ Ha Hp). cbn zeta. cbn [strictEqStr String.eqb].
    change (String.eqb "PENDING" "PENDING") with true. cbn iota.
    rewrite (IH fuel _ final state); cbn [record fetched server served trace].
    + f_equal. f_equal; [lia |]. cbn [rounds]. now rewrite <- !app_assoc.
    + intros k Hk. destruct (Hpend (S k)) as (d & Hd & Hr); [lia |].
      exists d. split; [| exact Hr]. now rewrite Nat.add_succ_comm.
    + now rewrite Nat.add_succ_comm.
    + exact Hstate.
    + exact Hsettled.
    + lia.
Qed.

End Traces.

(** ** A whole parse *)

Section Parse.

Variable this : LlamaParse.

Lemma parseFile_run file fuel w jobId id n final state :
  settles_after w jobId id n final state -> n < fuel ->
  parseFile this fuel file w =
    if strictEqStr state "SUCCESS" then
      getMarkdownResult this jobId (polled this file id n w)
    else
      match getProp final "error" with
      | inl e => (Throws e, polled this file id n w)
      | inr error =>
          match toString error with
          | inl e => (Throws e, polled this file id n w)
          | inr text =>
              (Throws (Error ("Parsing failed: " +:+ text)), polled this file id n w)
          end
      end.
Proof.
  intros (((up & Hup & Hupid) & Hid) & Hpend & Hfin & Hstate & Hsettled) Hfuel.
  unfold parseFile. unfold bind at 1. rewrite uploadFile_run.
  rewrite (settle_answers_with _ _ _ up jobId Hup Hupid).
  unfold bind at 1.
  rewrite (poll_pending_then_settled this jobId id Hid n fuel _ final state);
    cbn [fetched server served trace]; try assumption.
  - replace (S (served w) + S n) with (served w + n + 2) by lia.
    rewrite <- app_assoc. cbn [app]. fold (polled this file id n w).
    unfold bind at 1. rewrite Hstate. unfold lift at 1, ret at 1.
    destruct (strictEqStr state "SUCCESS"); cbn [negb]; [reflexivity |].
    unfold bind, lift, throw, ret.
    destruct (getProp final "error") as [e|error]; [reflexivity |].
    now destruct (toString error).
  - intros k Hk. destruct (Hpend k Hk) as (d & Hd & Hr). exists d.
    split; [| exact Hr]. now replace (S (served w) + k) with (served w + 1 + k) by lia.
  - now replace (S (served w) + n) with (served w + 1 + n) by lia.
Qed.

End Parse.

Lemma requestsTo_polled (this : LlamaParse) (file : Blob) (id : string) (n : nat)
    (srv : nat -> option Response) (from : nat) (answer : option Response) :
  let t := EFetch (uploadUrl this) (uploadInit this file) answer
             :: rounds this id srv from (S n) in
  requestsTo (statusUrl this id) t = n + 1 /\
  requestsTo (resultUrl this id) t = 0.
Proof.
  cbn zeta. split.
  - change (requestsTo (statusUrl this id) (EFetch ?u ?i ?a :: ?r))
      with ((if String.eqb u (statusUrl this id) then 1 else 0)
            + requestsTo (statusUrl this id) r).
    rewrite requestsTo_rounds_same.
    destruct (String.eqb_spec (uploadUrl this) (statusUrl this id)) as [E|_];
      [now apply uploadUrl_not_statusUrl in E | lia].
  - change (requestsTo (resultUrl this id) (EFetch ?u ?i ?a :: ?r))
      with ((if String.eqb u (resultUrl this id) then 1 else 0)
            + requestsTo (resultUrl this id) r).
    rewrite requestsTo_rounds_other by apply resultUrl_not_statusUrl.
    destruct (String.eqb_spec (uploadUrl this) (resultUrl this id)) as [E|_];
      [now apply uploadUrl_not_resultUrl in E | reflexivity].
Qed.

(** C1.  When the upload is accepted with a job id that converts to the
    string [id], the next [n] status answers are pending and the one after
    is settled, a parse makes exactly [n + 1] status requests.  When the
    settled status is SUCCESS, the parse then makes exactly one result
    request, after the last status request, and resolves with the parsed
    result. *)
Theorem parseFile_polls_until_settled (this : LlamaParse) (file : Blob) (fuel : nat)
    (w : World) (jobId : Value) (id : string) (n : nat) (final : JSON)
    (state : Value) :
  settles_after w jobId id n final state -> n < fuel ->
  exists t,
    trace (snd (parseFile this fuel file w)) = trace w ++ t /\
    requestsTo (statusUrl this id) t = n + 1 /\
    (reports final "SUCCESS" ->
     forall result, answers_with (server w (served w + n + 2)) result ->
       fst (parseFile this fuel file w) = Returns result /\
       requestsTo (resultUrl this id) t = 1 /\
       t = EFetch (uploadUrl this) (uploadInit this file) (server w (served w))
             :: rounds this id (server w) (S (served w)) (S n)
             ++ [EFetch (resultUrl this id) (getInit this)
                   (server w (served w + n + 2))]).
Proof.
  intros Hrun Hfuel.
  rewrite (parseFile_run this file fuel w jobId id n final state Hrun Hfuel).
  destruct Hrun as ((_ & Hid) & _ & _ & Hstate & _).
  destruct (requestsTo_polled this file id n (server w) (S (served w))
              (server w (served w))) as [Hs Hr].
  destruct (strictEqStr state "SUCCESS") eqn:Hok.
  - rewrite (getMarkdownResult_run this jobId id _ Hid).
    cbn [fst snd fetched polled trace server served].
    eexists. split; [rewrite <- app_assoc; reflexivity |].
    cbn [app]. rewrite app_comm_cons, !requestsTo_app, Hs, Hr. cbn [requestsTo].
    rewrite String.eqb_refl.
    destruct (String.eqb_spec (resultUrl this id) (statusUrl this id)) as [E|_];
      [now apply resultUrl_not_statusUrl in E |].
    split; [lia |]. intros _ result Hres. repeat split.
    now apply (settle_answers_with _ _ _ result).
  - exists (EFetch (uploadUrl this) (uploadInit this file) (server w (served w))
              :: rounds this id (server w) (S (served w)) (S n)).
    split.
    { destruct (getProp final "error") as [e|error]; [reflexivity |].
      now destruct (toString error). }
    split; [exact Hs |]. intros Hrep. unfold reports in Hrep.
    rewrite Hrep in Hstate. injection Hstate as <-. discriminate Hok.
Qed.

Lemma okJson_answers (srv : nat -> option Response) (k : nat) (data : JSON) :
  srv k = Some (okJson data) -> answers_with (srv k) data.
Proof.
  intros H. exists (okJson data). repeat split; [exact H | |]; simpl; lia.
Qed.

(** The upload of a scripted server is accepted with the id of its first
    answer. *)
Lemma script_accepted (up : JSON) (rest : list Response) (jobId : Value) :
  getProp up "id" = inr jobId ->
  accepted_as (boot (script (okJson up :: rest))) jobId.
Proof.
  intros Hid. exists up. split; [now apply okJson_answers | exact Hid].
Qed.

Lemma parseFile_polls_until_settled_witness :
  exists t,
    trace (snd (parseFile sampleClient 3 [] (boot twicePending))) = t /\
    requestsTo "https://example.test/api/job/job-1" t = 3 /\
    requestsTo "https://example.test/api/job/job-1/result/markdown" t = 1 /\
    fst (parseFile sampleClient 3 [] (boot twicePending)) = Returns sampleResult.
Proof.
  destruct (parseFile_polls_until_settled sampleClient [] 3 (boot twicePending)
              (VJson (JStr "job-1")) "job-1" 2 (jobJson "SUCCESS")
              (VJson (JStr "SUCCESS")))
    as (t & Ht & Hs & Hsucc).
  - split; [| split; [| split; [| split]]].
    + split; [now apply script_accepted | reflexivity].
    + intros [|[|k]] Hk; [| | lia]; exists (jobJson "PENDING");
        (split; [now apply okJson_answers | reflexivity]).
    + now apply okJson_answers.
    + reflexivity.
    + reflexivity.
  - lia.
  - destruct (Hsucc eq_refl sampleResult) as (Hret & Hr & _);
      [now apply okJson_answers |].
    exists t. repeat split; assumption.
Defined.

(** C2.  When the upload is accepted with a job id that converts to the
    string [id], and the first status other than pending is FAILED and
    carries the error message [e], a parse throws the parse-failure error,
    whose message contains [e]; its requests are the upload and the status
    requests only, none to the result endpoint. *)
Theorem parseFile_failed_raises (this : LlamaParse) (file : Blob) (fuel : nat)
    (w : World) (jobId : Value) (id : string) (n : nat) (final : JSON)
    (e : string) :
  settles_after w jobId id n final (VJson (JStr "FAILED")) ->
  getProp final "error" = inr (VJson (JStr e)) ->
  n < fuel ->
  fst (parseFile this fuel file w) = Throws (ParseFailedError e) /\
  mentions (ParseFailedError e) e /\
  exists t,
    trace (snd (parseFile this fuel file w)) = trace w ++ t /\
    t = EFetch (uploadUrl this) (uploadInit this file) (server w (served w))
          :: rounds this id (server w) (S (served w)) (S n) /\
    requestsTo (resultUrl this id) t = 0.
Proof.
  intros Hrun Herr Hfuel.
  rewrite (parseFile_run this file fuel w jobId id n final _ Hrun Hfuel), Herr.
  cbn [strictEqStr fst snd polled trace toString toStringJSON].
  change (String.eqb "FAILED" "SUCCESS") with false. cbn iota. cbn [fst snd polled trace].
  split; [reflexivity |]. split; [apply mentions_suffix |].
  eexists. split; [reflexivity |]. split; [reflexivity |].
  apply requestsTo_polled.
Qed.

Lemma parseFile_failed_raises_witness :
  fst (parseFile sampleClient 1 []
         (boot (script [okJson (JObj [("id", JStr "job-1")]); okJson failedScan])))
    = Throws (Error "Parsing failed: bad scan") /\
  requestsTo "https://example.test/api/job/job-1/result/markdown"
    (trace (snd (parseFile sampleClient 1 []
                   (boot (script [okJson (JObj [("id", JStr "job-1")]);
                                  okJson failedScan]))))) = 0.
Proof.
  destruct (parseFile_failed_raises sampleClient [] 1
              (boot (script [okJson (JObj [("id", JStr "job-1")]); okJson failedScan]))
              (VJson (JStr "job-1")) "job-1" 0 failedScan "bad scan")
    as (Hthrow & _ & t & Ht & _ & Hnone).
  - split; [| split; [| split; [| split]]].
    + split; [now apply script_accepted | reflexivity].
    + intros k Hk. lia.
    + now apply okJson_answers.
    + reflexivity.
    + reflexivity.
  - reflexivity.
  - lia.
  - split; [exact Hthrow |]. rewrite Ht. exact Hnone.
Defined.

(** ** Every run, whatever the server does *)

Section EveryRun.

Variable this : LlamaParse.

(** A job id and the string a template literal converts it to. *)
Variable jobId : Value.
Variable id : string.
Hypothesis Hid : toString jobId = inr id.

Lemma usable_settle answer :
  usable answer = returned (settle StatusCheckError (@inr Exn JSON) answer).
Proof.
  destruct answer as [r|]; [| reflexivity]. unfold usable, settle.
  destruct (ok r); [| reflexivity]. now destruct (body r).
Qed.

Lemma checkStatus_returned w :
  returned (fst (checkStatus this jobId w)) = usable (server w (served w)).
Proof. now rewrite (checkStatus_run this jobId id w Hid), usable_settle. Qed.

(** One turn of the loop, by cases on the answer. *)
Lemma poll_turn fuel w :
  poll this (S fuel) jobId w =
    let w1 := fetched (statusUrl this id) (getInit this) w in
    let w2 := record (ESleep 1000) w1 in
    match settle StatusCheckError inr (server w (served w)) with
    | Returns status =>
        match getProp status "status" with
        | inl e => (Throws e, w2)
        | inr state =>
            if strictEqStr state "PENDING" then poll this fuel jobId w2
            else (Returns status, w2)
        end
    | Throws e => (Throws e, w1)
    | Unsettled => (Unsettled, w1)
    end.
Proof.
  cbn [poll]. unfold bind at 1. rewrite (checkStatus_run this jobId id w Hid). cbn zeta.
  destruct (settle StatusCheckError inr (server w (served w))) as [status|e|];
    [| reflexivity | reflexivity].
  unfold bind at 1, sleep. unfold bind at 1.
  destruct (getProp status "status") as [e|state]; [reflexivity |].
  unfold lift, ret. now destruct (strictEqStr state "PENDING").
Qed.

Lemma delayed_turn init answer rest :
  delayed (statusUrl this id)
    (EFetch (statusUrl this id) init answer :: ESleep 1000 :: rest)
  = delayed (statusUrl this id) rest.
Proof.
  cbn [delayed]. change (Nat.eqb 1000 1000) with true.
  now destruct (String.eqb _ _ && usable answer).
Qed.

Lemma delayed_other url u init answer rest :
  u <> url -> delayed url (EFetch u init answer :: rest) = delayed url rest.
Proof.
  intros Hne. cbn [delayed].
  destruct (String.eqb_spec u url) as [E|_]; [congruence | reflexivity].
Qed.

(** The loop, from any world and for any fuel: what it adds to the trace
    are status requests for [id] and timers, the first event being a
    status request when a turn is allowed, and each usable answer is
    followed by its timer, also when more events follow a loop that has
    returned. *)
Lemma poll_every_run fuel :
  forall w, exists t,
    trace (snd (poll this fuel jobId w)) = trace w ++ t /\
    Forall (for_job this id) t /\
    (0 < fuel -> exists rest,
        t = EFetch (statusUrl this id) (getInit this) (server w (served w)) :: rest) /\
    forall tail,
      delayed (statusUrl this id) tail = true ->
      returned (fst (poll this fuel jobId w)) = true \/ tail = [] ->
      delayed (statusUrl this id) (t ++ tail) = true.
Proof.
  induction fuel as [|fuel IH]; intros w.
  - exists []. cbn [poll fst snd app]. rewrite app_nil_r.
    split; [reflexivity |]. split; [constructor |]. split; [lia | auto].
  - rewrite poll_turn. cbn zeta.
    pose proof (usable_settle (server w (served w))) as Hu.
    destruct (settle StatusCheckError inr (server w (served w))) as [status|e|].
    + destruct (getProp status "status") as [e|state].
      * eexists. cbn [fst snd record fetched trace].
        split; [rewrite <- app_assoc; reflexivity |].
        split; [repeat constructor; auto |].
        split; [intros _; eexists; reflexivity |].
        intros tail Htail [Hret | ->]; [discriminate Hret |].
        cbn [app]. now rewrite delayed_turn.
      * destruct (strictEqStr state "PENDING").
        -- destruct (IH (record (ESleep 1000)
                           (fetched (statusUrl this id) (getInit this) w)))
             as (t & Ht & Hall & _ & Hd).
           exists (EFetch (statusUrl this id) (getInit this) (server w (served w))
                     :: ESleep 1000 :: t).
           split; [rewrite Ht; cbn [record fetched trace];
                   rewrite <- !app_assoc; reflexivity |].
           split; [repeat constructor; auto |].
           split; [intros _; eexists; reflexivity |].
           intros tail Htail Hret. cbn [app]. rewrite delayed_turn. now apply Hd.
        -- eexists. cbn [fst snd record fetched trace].
           split; [rewrite <- app_assoc; reflexivity |].
           split; [repeat constructor; auto |].
           split; [intros _; eexists; reflexivity |].
           intros tail Htail _. cbn [app]. now rewrite delayed_turn.
    + eexists. cbn [fst snd fetched trace]. split; [reflexivity |].
      split; [repeat constructor; auto |].
      split; [intros _; eexists; reflexivity |].
      intros tail Htail [Hret | ->]; [discriminate Hret |].
      cbn [app delayed]. cbn [returned] in Hu. rewrite Hu. now rewrite andb_false_r.
    + eexists. cbn [fst snd fetched trace]. split; [reflexivity |].
      split; [repeat constructor; auto |].
      split; [intros _; eexists; reflexivity |].
      intros tail Htail [Hret | ->]; [discriminate Hret |].
      cbn [app delayed]. cbn [returned] in Hu. rewrite Hu. now rewrite andb_false_r.
Qed.

End EveryRun.

Section EveryParse.

Variable this : LlamaParse.


(** A job id that the template literal cannot convert: the loop makes no
    request; it throws at its first turn. *)
Lemma poll_unrendered fuel jobId e w :
  toString jobId = inl e ->
  poll this fuel jobId w =
    (match fuel with 0 => Unsettled | S _ => Throws e end, w).
Proof.
  intros Hid. destruct fuel as [|fuel]; [reflexivity |].
  cbn [poll]. unfold bind at 1. now rewrite (checkStatus_unrendered this jobId e w Hid).
Qed.

(** A parse, from any world and for any fuel.  Its first event is the
    upload request.  When the upload does not return a job id, or returns
    one that does not convert to a string, nothing follows.  When it
    returns a job id that converts to [id], whatever that string is, what
    follows are requests for [id] and timers, starting with a status
    request when a turn is allowed, each usable status answer being
    followed by its timer. *)
Lemma parseFile_every_run fuel file w :
  exists t,
    trace (snd (parseFile this fuel file w)) =
      trace w ++ EFetch (uploadUrl this) (uploadInit this file) (server w (served w)) :: t /\
    (forall jobId id,
       fst (uploadFile this file w) = Returns jobId -> toString jobId = inr id ->
       Forall (for_job this id) t /\
       delayed (statusUrl this id) t = true /\
       (0 < fuel -> exists rest,
           t = EFetch (statusUrl this id) (getInit this) (server w (S (served w)))
                 :: rest)) /\
    (forall jobId e,
       fst (uploadFile this file w) = Returns jobId -> toString jobId = inl e ->
       t = []) /\
    (returned (fst (uploadFile this file w)) = false -> t = []).
Proof.
  unfold parseFile. unfold bind at 1. rewrite uploadFile_run. cbn [fst].
  destruct (settle UploadError (fun data => getProp data "id") (server w (served w)))
    as [jobId|e|].
  2,3: exists []; cbn [snd fetched trace]; repeat split; intros; discriminate.
  destruct (toString jobId) as [e|id] eqn:Hid.
  { unfold bind at 1. rewrite (poll_unrendered fuel jobId e _ Hid).
    exists []. split; [now destruct fuel |].
    split; [| split; [reflexivity | discriminate]].
    intros j i [= <-] Hi. congruence. }
  destruct (poll_every_run this jobId id Hid fuel
              (fetched (uploadUrl this) (uploadInit this file) w))
    as (t & Ht & Hall & Hfirst & Hd).
  cbn [fetched server served] in Hfirst.
  assert (Hstop : delayed (statusUrl this id) t = true).
  { rewrite <- (app_nil_r t). apply Hd; auto. }
  assert (Hplain : forall (o : Outcome JSON) w',
             trace w' = trace (fetched (uploadUrl this) (uploadInit this file) w) ++ t ->
             exists t' : list Event,
               trace (snd (o, w')) =
                 trace w ++ EFetch (uploadUrl this) (uploadInit this file)
                              (server w (served w)) :: t' /\
               (forall (j : Value) (i : string),
                  Returns jobId = Returns j -> toString j = inr i ->
                  Forall (for_job this i) t' /\
                  delayed (statusUrl this i) t' = true /\
                  (0 < fuel -> exists rest,
                      t' = EFetch (statusUrl this i) (getInit this)
                             (server w (S (served w))) :: rest)) /\
               (forall (j : Value) (e : Exn),
                  Returns jobId = Returns j -> toString j = inl e -> t' = []) /\
               (returned (Returns jobId) = false -> t' = [])).
  { intros o w' Hw'. exists t. cbn [snd]. rewrite Hw'. cbn [fetched trace].
    rewrite <- app_assoc. split; [reflexivity |].
    split; [| split; [| discriminate]].
    - intros j i [= <-] Hi. rewrite Hid in Hi. injection Hi as <-. now repeat split.
    - intros j e [= <-] He. congruence. }
  unfold bind at 1.
  destruct (poll this fuel jobId (fetched (uploadUrl this) (uploadInit this file) w))
    as [[status|e|] w2]; cbn [fst snd] in Ht, Hd; [| now apply Hplain | now apply Hplain].
  unfold bind at 1.
  destruct (getProp status "status") as [e|state]; [now apply Hplain |].
  unfold lift at 1, ret at 1.
  destruct (strictEqStr state "SUCCESS"); cbn [negb].
  - rewrite (getMarkdownResult_run this jobId id _ Hid). cbn [snd fetched trace].
    exists (t ++ [EFetch (resultUrl this id) (getInit this) (server w2 (served w2))]).
    rewrite Ht. cbn [fetched trace]. rewrite <- !app_assoc.
    split; [reflexivity |]. split; [| split; [| discriminate]].
    + intros j i [= <-] Hi. rewrite Hid in Hi. injection Hi as <-. split; [| split].
      * apply Forall_app. split; [exact Hall |].
        constructor; [| constructor]. split; [now right | reflexivity].
      * apply Hd; [| now left].
        rewrite delayed_other by apply resultUrl_not_statusUrl. reflexivity.
      * intros Hfuel. destruct (Hfirst Hfuel) as (rest & ->). eexists. reflexivity.
    + intros j e [= <-] He. congruence.
  - unfold bind at 1.
    destruct (getProp status "error") as [e|error]; [now apply Hplain |].
    unfold lift at 1, ret at 1. unfold bind, lift, throw, ret.
    destruct (toString error); now apply Hplain.
Qed.


End EveryParse.

(** *** The job id is not checked *)


(** The same with a missing id, which a template literal renders as
    [undefined]. *)
Lemma parseFile_missing_id_proceeds :
  ~ proceeds_only_with_id sampleClient 1 [] (boot missingIdServer).
Proof.
  intros H.
  destruct (H VUndefined "undefined" eq_refl (or_introl eq_refl) eq_refl) as [Hs _].
  vm_compute in Hs. discriminate Hs.
Qed.

Example parseFile_empty_id_trace :
  fst (parseFile sampleClient 1 [] (boot emptyIdServer)) = Returns sampleResult /\
  requestsTo "https://example.test/api/job/"
    (trace (snd (parseFile sampleClient 1 [] (boot emptyIdServer)))) = 1 /\
  requestsTo "https://example.test/api/job//result/markdown"
    (trace (snd (parseFile sampleClient 1 [] (boot emptyIdServer)))) = 1.
Proof. repeat split; vm_compute; reflexivity. Qed.



(** *** The delay *)




(** * Further properties *)

(** ** Failures are passed on, not retried *)

Section Propagation.

Variable this : LlamaParse.

(** A job id and the string a template literal converts it to. *)
Variable jobId : Value.
Variable id : string.
Hypothesis Hid : toString jobId = inr id.

Lemma settle_returns_inv {A} failure (decode : JSON -> Exn + A) answer a :
  settle failure decode answer = Returns a ->
  exists data, answers_with answer data /\ decode data = inr a.
Proof.
  unfold settle. destruct answer as [r|]; [| discriminate].
  destruct (ok r) eqn:Hok; [| discriminate].
  destruct (body r) as [data|] eqn:Hb; [| discriminate].
  destruct (decode data) as [e|a'] eqn:Hd; [discriminate |].
  intros [= <-]. exists data. split; [| exact Hd].
  exists r. split; [reflexivity | split; [now apply ok_true_iff | exact Hb]].
Qed.

Lemma pending_for_shift (w : World) (n : nat) url init :
  (forall k, k < n -> exists data,
      answers_with (server w (served w + 1 + k)) data /\ reports data "PENDING") ->
  forall k, k < n -> exists data,
      answers_with (server (fetched url init w) (served (fetched url init w) + k)) data /\
      reports data "PENDING".
Proof.
  intros H k Hk. destruct (H k Hk) as (d & Hd & Hr). exists d.
  cbn [fetched server served]. split; [| exact Hr].
  now replace (S (served w) + k) with (served w + 1 + k) by lia.
Qed.

(** [n] pending answers, then an answer on which [checkStatus] throws
    [e]: the loop stops at that request, without a timer after it. *)
Lemma poll_pending_then_throws n :
  forall fuel w e,
    (forall k, k < n -> exists data,
        answers_with (server w (served w + k)) data /\ reports data "PENDING") ->
    settle StatusCheckError (@inr Exn JSON) (server w (served w + n)) = Throws e ->
    n < fuel ->
    poll this fuel jobId w =
      (Throws e,
       {| server := server w;
          served := served w + S n;
          trace := trace w
                     ++ rounds this id (server w) (served w) n
                     ++ [EFetch (statusUrl this id) (getInit this)
                           (server w (served w + n))] |}).
Proof.
  induction n as [|n IH]; intros fuel w e Hpend Hthrow Hfuel.
  - destruct fuel as [|fuel]; [lia |].
    rewrite Nat.add_0_r in *. rewrite (poll_turn this jobId id Hid), Hthrow. cbn zeta.
    unfold fetched. cbn [rounds app]. do 2 f_equal. lia.
  - destruct fuel as [|fuel]; [lia |].
    destruct (Hpend 0) as (data & Ha & Hp); [lia |].
    rewrite Nat.add_0_r in Ha.
    rewrite (poll_step this jobId id Hid _ _ data _ Ha Hp). cbn zeta. cbn [strictEqStr].
    change (String.eqb "PENDING" "PENDING") with true. cbn iota.
    rewrite (IH fuel _ e); cbn [record fetched server served trace].
    + f_equal. f_equal; [lia |]. cbn [rounds].
      rewrite <- !app_assoc. cbn [app]. now rewrite Nat.add_succ_comm.
    + intros k Hk. destruct (Hpend (S k)) as (d & Hd & Hr); [lia |].
      exists d. split; [| exact Hr]. now rewrite Nat.add_succ_comm.
    + now rewrite Nat.add_succ_comm.
    + lia.
Qed.

(** Pending answers only: the loop uses up any fuel. *)
Lemma poll_all_pending fuel :
  forall w,
    (forall k, k < fuel -> exists data,
        answers_with (server w (served w + k)) data /\ reports data "PENDING") ->
    poll this fuel jobId w =
      (Unsettled,
       {| server := server w;
          served := served w + fuel;
          trace := trace w ++ rounds this id (server w) (served w) fuel |}).
Proof.
  induction fuel as [|fuel IH]; intros w Hpend.
  - cbn [poll rounds]. rewrite app_nil_r, Nat.add_0_r. now destruct w.
  - destruct (Hpend 0) as (data & Ha & Hp); [lia |].
    rewrite Nat.add_0_r in Ha.
    rewrite (poll_step this jobId id Hid _ _ data _ Ha Hp). cbn zeta. cbn [strictEqStr].
    change (String.eqb "PENDING" "PENDING") with true. cbn iota.
    rewrite IH; cbn [record fetched server served trace].
    + f_equal. f_equal; [lia |]. cbn [rounds]. now rewrite <- !app_assoc.
    + intros k Hk. destruct (Hpend (S k)) as (d & Hd & Hr); [lia |].
      exists d. split; [| exact Hr]. now rewrite Nat.add_succ_comm.
Qed.

End Propagation.

Lemma parseFile_accepted (this : LlamaParse) (fuel : nat) (file : Blob) (w : World)
    (up : JSON) (jobId : Value) :
  answers_with (server w (served w)) up -> getProp up "id" = inr jobId ->
  parseFile this fuel file w =
    bind (poll this fuel jobId)
      (fun status =>
         let! state := lift (getProp status "status") in
         if negb (strictEqStr state "SUCCESS") then
           let! error := lift (getProp status "error") in
           let! text := lift (toString error) in
           throw (Error ("Parsing failed: " +:+ text))
         else getMarkdownResult this jobId)
      (fetched (uploadUrl this) (uploadInit this file) w).
Proof.
  intros Hup Hid. unfold parseFile. unfold bind at 1. rewrite uploadFile_run.
  now rewrite (settle_answers_with _ _ _ up jobId Hup Hid).
Qed.

(** X1.  A rejected upload ends the parse: it throws the upload error and has
    made the upload request only, for any loop bound. *)
Theorem parseFile_upload_rejected (this : LlamaParse) (fuel : nat) (file : Blob)
    (w : World) (r : Response) :
  server w (served w) = Some r -> ~ is2xx r ->
  fst (parseFile this fuel file w) = Throws (UploadError (statusText r)) /\
  trace (snd (parseFile this fuel file w)) =
    trace w ++ [EFetch (uploadUrl this) (uploadInit this file) (Some r)].
Proof.
  intros Hr Hno.
  assert (E : parseFile this fuel file w =
              (Throws (UploadError (statusText r)),
               fetched (uploadUrl this) (uploadInit this file) w)).
  { unfold parseFile. unfold bind at 1.
    now rewrite uploadFile_run, Hr, (settle_not_2xx _ _ _ Hno). }
  rewrite E. cbn [fst snd fetched trace]. now rewrite Hr.
Qed.

Lemma parseFile_upload_rejected_witness :
  fst (parseFile sampleClient 7 [] (boot (script [unavailable])))
    = Throws (Error "Upload failed: Service Unavailable") /\
  trace (snd (parseFile sampleClient 7 [] (boot (script [unavailable])))) =
    [EFetch "https://example.test/api/upload" (uploadInit sampleClient [])
       (Some unavailable)].
Proof.
  apply (parseFile_upload_rejected sampleClient 7 [] (boot (script [unavailable]))
           unavailable eq_refl).
  unfold is2xx. simpl. lia.
Defined.

(** X2.  A rejected status request ends the parse at once: for a job id
    that converts to the string [id], after [n] pending answers it throws
    the status-check error; the failing request is the last event, with no
    timer after it and no result request. *)
Theorem parseFile_status_rejected (this : LlamaParse) (fuel : nat) (file : Blob)
    (w : World) (jobId : Value) (id : string) (n : nat) (r : Response) :
  pending_for w jobId id n ->
  server w (served w + 1 + n) = Some r -> ~ is2xx r ->
  n < fuel ->
  fst (parseFile this fuel file w) = Throws (StatusCheckError (statusText r)) /\
  trace (snd (parseFile this fuel file w)) =
    trace w
      ++ EFetch (uploadUrl this) (uploadInit this file) (server w (served w))
      :: rounds this id (server w) (S (served w)) n
      ++ [EFetch (statusUrl this id) (getInit this) (Some r)].
Proof.
  intros (((up & Hup & Hupid) & Hid) & Hpend) Hr Hno Hfuel.
  assert (Hr' : server w (S (served w) + n) = Some r)
    by now replace (S (served w) + n) with (served w + 1 + n) by lia.
  assert (E : poll this fuel jobId (fetched (uploadUrl this) (uploadInit this file) w) =
              (Throws (StatusCheckError (statusText r)),
               {| server := server w;
                  served := S (served w) + S n;
                  trace := (trace w ++ [EFetch (uploadUrl this) (uploadInit this file)
                                          (server w (served w))])
                             ++ rounds this id (server w) (S (served w)) n
                             ++ [EFetch (statusUrl this id) (getInit this)
                                   (Some r)] |})).
  { rewrite (poll_pending_then_throws this jobId id Hid n fuel _
               (StatusCheckError (statusText r))).
    - cbn [fetched server served trace]. now rewrite Hr'.
    - now apply pending_for_shift.
    - cbn [fetched server served]. rewrite Hr'. now apply settle_not_2xx.
    - exact Hfuel. }
  rewrite (parseFile_accepted this fuel file w up jobId Hup Hupid).
  unfold bind. rewrite E. cbn [fst snd trace].
  split; [reflexivity |]. now rewrite <- app_assoc.
Qed.

Lemma parseFile_status_rejected_witness :
  fst (parseFile sampleClient 2 [] (boot rejectingServer))
    = Throws (Error "Status check failed: Service Unavailable") /\
  trace (snd (parseFile sampleClient 2 [] (boot rejectingServer))) =
    [EFetch "https://example.test/api/upload" (uploadInit sampleClient [])
       (Some (okJson (JObj [("id", JStr "job-1")])));
     EFetch "https://example.test/api/job/job-1" (getInit sampleClient)
       (Some (okJson (jobJson "PENDING")));
     ESleep 1000;
     EFetch "https://example.test/api/job/job-1" (getInit sampleClient)
       (Some unavailable)].
Proof.
  apply (parseFile_status_rejected sampleClient 2 [] (boot rejectingServer)
           (VJson (JStr "job-1")) "job-1" 1 unavailable).
  - split.
    + split; [now apply script_accepted | reflexivity].
    + intros [|k] Hk; [| lia]. exists (jobJson "PENDING").
      split; [now apply okJson_answers | reflexivity].
  - reflexivity.
  - unfold is2xx. simpl. lia.
  - lia.
Defined.

(** X3.  A rejected result request is not retried: for a job id that
    converts to the string [id], once SUCCESS is observed the parse makes
    one result request and throws the result-fetch error when the answer
    is outside 2xx. *)
Theorem parseFile_result_rejected (this : LlamaParse) (fuel : nat) (file : Blob)
    (w : World) (jobId : Value) (id : string) (n : nat) (final : JSON)
    (r : Response) :
  settles_after w jobId id n final (VJson (JStr "SUCCESS")) ->
  server w (served w + n + 2) = Some r -> ~ is2xx r ->
  n < fuel ->
  fst (parseFile this fuel file w) = Throws (ResultFetchError (statusText r)) /\
  trace (snd (parseFile this fuel file w)) =
    trace w
      ++ EFetch (uploadUrl this) (uploadInit this file) (server w (served w))
      :: rounds this id (server w) (S (served w)) (S n)
      ++ [EFetch (resultUrl this id) (getInit this) (Some r)].
Proof.
  intros Hrun Hr Hno Hfuel.
  rewrite (parseFile_run this file fuel w jobId id n final _ Hrun Hfuel).
  destruct Hrun as ((_ & Hid) & _).
  cbn [strictEqStr]. change (String.eqb "SUCCESS" "SUCCESS") with true. cbn iota.
  rewrite (getMarkdownResult_run this jobId id _ Hid).
  cbn [fst snd fetched polled server served trace].
  rewrite Hr. split; [now apply settle_not_2xx |]. now rewrite <- app_assoc.
Qed.

Lemma parseFile_result_rejected_witness :
  fst (parseFile sampleClient 1 []
         (boot (script [okJson (JObj [("id", JStr "job-1")]);
                        okJson (jobJson "SUCCESS"); unavailable])))
    = Throws (Error "Failed to get results: Service Unavailable").
Proof.
  apply (parseFile_result_rejected sampleClient 1 []
           (boot (script [okJson (JObj [("id", JStr "job-1")]);
                          okJson (jobJson "SUCCESS"); unavailable]))
           (VJson (JStr "job-1")) "job-1" 0 (jobJson "SUCCESS") unavailable).
  - split; [| split; [| split; [| split]]].
    + split; [now apply script_accepted | reflexivity].
    + intros k Hk. lia.
    + now apply okJson_answers.
    + reflexivity.
    + reflexivity.
  - reflexivity.
  - unfold is2xx. simpl. lia.
  - lia.
Defined.

(** ** The loop has no bound *)

(** X4.  While the server keeps answering PENDING, a parse whose job id
    converts to the string [id] does not settle: whatever number of turns
    is allowed, all of them are used, each one a status request and a
    timer, and the parse is still polling. *)
Theorem parseFile_pending_forever (this : LlamaParse) (file : Blob) (w : World)
    (jobId : Value) (id : string) :
  (forall n, pending_for w jobId id n) ->
  forall fuel,
    fst (parseFile this fuel file w) = Unsettled /\
    trace (snd (parseFile this fuel file w)) =
      trace w
        ++ EFetch (uploadUrl this) (uploadInit this file) (server w (served w))
        :: rounds this id (server w) (S (served w)) fuel.
Proof.
  intros Hall fuel. destruct (Hall fuel) as (((up & Hup & Hupid) & Hid) & Hpend).
  rewrite (parseFile_accepted this fuel file w up jobId Hup Hupid).
  unfold bind.
  rewrite (poll_all_pending this jobId id Hid) by now apply pending_for_shift.
  cbn [fst snd fetched server served trace].
  split; [reflexivity |]. now rewrite <- app_assoc.
Qed.

Lemma alwaysPending_pending (n : nat) :
  pending_for (boot alwaysPending) (VJson (JStr "job-1")) "job-1" n.
Proof.
  split.
  - split; [| reflexivity]. eexists. split; [now apply okJson_answers | reflexivity].
  - intros k Hk. exists (jobJson "PENDING").
    split; [| reflexivity]. apply okJson_answers.
    cbn [boot served]. now replace (0 + 1 + k) with (S k) by lia.
Qed.

Lemma parseFile_pending_forever_witness :
  fst (parseFile sampleClient 5 [] (boot alwaysPending)) = Unsettled /\
  requestsTo (statusUrl sampleClient "job-1")
    (trace (snd (parseFile sampleClient 5 [] (boot alwaysPending)))) = 5.
Proof.
  destruct (parseFile_pending_forever sampleClient [] (boot alwaysPending)
              (VJson (JStr "job-1")) "job-1" alwaysPending_pending 5)
    as [Hout Htrace].
  split; [exact Hout |]. rewrite Htrace. reflexivity.
Defined.

(** ** Statuses other than SUCCESS *)

(** X5.  Every settled status other than SUCCESS is a failure, not FAILED
    alone.  For a job id that converts to a string, the parse makes no
    result request and throws: the parse-failure error with the [error]
    field of the settled answer converted to a string ([undefined] when
    the field is absent), or the conversion's own error when that field
    does not convert. *)
Theorem parseFile_other_status_raises (this : LlamaParse) (fuel : nat) (file : Blob)
    (w : World) (jobId : Value) (id : string) (n : nat) (final : JSON)
    (state : Value) :
  settles_after w jobId id n final state ->
  strictEqStr state "SUCCESS" = false ->
  n < fuel ->
  exists error,
    getProp final "error" = inr error /\
    (forall text, toString error = inr text ->
       fst (parseFile this fuel file w) = Throws (ParseFailedError text)) /\
    (forall e, toString error = inl e ->
       fst (parseFile this fuel file w) = Throws e) /\
    exists t,
      trace (snd (parseFile this fuel file w)) = trace w ++ t /\
      requestsTo (resultUrl this id) t = 0.
Proof.
  intros Hrun Hno Hfuel.
  rewrite (parseFile_run this file fuel w jobId id n final state Hrun Hfuel), Hno.
  destruct Hrun as (_ & _ & _ & Hstate & _).
  assert (Herr : exists error, getProp final "error" = inr error).
  { destruct final; try discriminate Hstate; cbn [getProp]; eexists; reflexivity. }
  destruct Herr as (error & Herr). exists error. rewrite Herr.
  split; [reflexivity |].
  split; [now intros text -> |]. split; [now intros e -> |].
  exists (EFetch (uploadUrl this) (uploadInit this file) (server w (served w))
            :: rounds this id (server w) (S (served w)) (S n)).
  split; [now destruct (toString error) | apply requestsTo_polled].
Qed.

Lemma parseFile_other_status_raises_witness :
  fst (parseFile sampleClient 1 []
         (boot (script [okJson (JObj [("id", JStr "job-1")]);
                        okJson (jobJson "CANCELLED")])))
    = Throws (Error "Parsing failed: undefined") /\
  fst (parseFile sampleClient 1 []
         (boot (script [okJson (JObj [("id", JStr "job-1")]);
                        okJson (JObj [("status", JStr "FAILED");
                                      ("error", JObj [("toString", JStr "x")])])])))
    = Throws TypeError.
Proof.
  split.
  - destruct (parseFile_other_status_raises sampleClient 1 []
                (boot (script [okJson (JObj [("id", JStr "job-1")]);
                               okJson (jobJson "CANCELLED")]))
                (VJson (JStr "job-1")) "job-1" 0 (jobJson "CANCELLED")
                (VJson (JStr "CANCELLED")))
      as (error & Herr & Htext & _).
    + split; [| split; [| split; [| split]]].
      * split; [now apply script_accepted | reflexivity].
      * intros k Hk. lia.
      * now apply okJson_answers.
      * reflexivity.
      * reflexivity.
    + reflexivity.
    + lia.
    + injection Herr as <-. apply Htext. reflexivity.
  - destruct (parseFile_other_status_raises sampleClient 1 []
                (boot (script [okJson (JObj [("id", JStr "job-1")]);
                               okJson (JObj [("status", JStr "FAILED");
                                             ("error", JObj [("toString", JStr "x")])])]))
                (VJson (JStr "job-1")) "job-1" 0
                (JObj [("status", JStr "FAILED");
                       ("error", JObj [("toString", JStr "x")])])
                (VJson (JStr "FAILED")))
      as (error & Herr & _ & Hthrow & _).
    + split; [| split; [| split; [| split]]].
      * split; [now apply script_accepted | reflexivity].
      * intros k Hk. lia.
      * now apply okJson_answers.
      * reflexivity.
      * reflexivity.
    + reflexivity.
    + lia.
    + injection Herr as <-. apply Hthrow. reflexivity.
Defined.

(** ** Time spent waiting *)

Lemma slept_app (t1 t2 : list Event) : slept (t1 ++ t2) = slept t1 + slept t2.
Proof.
  induction t1 as [|[u init a | ms] t1 IH]; cbn [app slept]; [reflexivity | exact IH |].
  rewrite IH. lia.
Qed.

Lemma slept_rounds (this : LlamaParse) id srv from m :
  slept (rounds this id srv from m) = 1000 * m.
Proof.
  revert from. induction m as [|m IH]; intros from; cbn [rounds slept]; [lia |].
  rewrite IH. lia.
Qed.

(** X6.  A parse whose job id converts to a string and that observes [n]
    pending answers and then a settled one has waited exactly [n + 1]
    seconds on its timers, so at least one second even when the first
    answer is already settled. *)
Theorem parseFile_time_waited (this : LlamaParse) (fuel : nat) (file : Blob)
    (w : World) (jobId : Value) (id : string) (n : nat) (final : JSON)
    (state : Value) :
  settles_after w jobId id n final state -> n < fuel ->
  exists t,
    trace (snd (parseFile this fuel file w)) = trace w ++ t /\
    slept t = 1000 * (n + 1).
Proof.
  intros Hrun Hfuel.
  rewrite (parseFile_run this file fuel w jobId id n final state Hrun Hfuel).
  destruct Hrun as ((_ & Hid) & _).
  assert (Hs : slept (EFetch (uploadUrl this) (uploadInit this file) (server w (served w))
                        :: rounds this id (server w) (S (served w)) (S n))
               = 1000 * (n + 1)).
  { cbn [slept]. rewrite slept_rounds. lia. }
  destruct (strictEqStr state "SUCCESS").
  - rewrite (getMarkdownResult_run this jobId id _ Hid). cbn [snd fetched polled trace].
    eexists. split; [rewrite <- app_assoc; reflexivity |].
    rewrite slept_app, Hs. cbn [slept]. lia.
  - eexists. split; [| exact Hs].
    destruct (getProp final "error") as [e|error]; [reflexivity |].
    now destruct (toString error).
Qed.

Lemma parseFile_time_waited_witness :
  exists t,
    trace (snd (parseFile sampleClient 3 [] (boot twicePending))) = t /\
    slept t = 3000.
Proof.
  apply (parseFile_time_waited sampleClient 3 [] (boot twicePending)
           (VJson (JStr "job-1")) "job-1" 2 (jobJson "SUCCESS")
           (VJson (JStr "SUCCESS"))).
  - split; [| split; [| split; [| split]]].
    + split; [now apply script_accepted | reflexivity].
    + intros [|[|k]] Hk; [| | lia]; exists (jobJson "PENDING");
        (split; [now apply okJson_answers | reflexivity]).
    + now apply okJson_answers.
    + reflexivity.
    + reflexivity.
  - lia.
Defined.

(** ** A result comes only after SUCCESS *)

Lemma bind_returns_inv {A B} (m : M A) (k : A -> M B) w b w' :
  bind m k w = (Returns b, w') ->
  exists a w1, m w = (Returns a, w1) /\ k a w1 = (Returns b, w').
Proof.
  unfold bind. destruct (m w) as [[a|e|] w1]; intros H; try discriminate H.
  now exists a, w1.
Qed.

(** When the loop returns, what it returns is the body of the last answer,
    and the [status] of that body is not pending. *)
Lemma poll_returns_inv (this : LlamaParse) jobId fuel :
  forall w status w',
    poll this fuel jobId w = (Returns status, w') ->
    server w' = server w /\
    exists k state,
      served w' = S k /\ served w <= k /\
      answers_with (server w k) status /\
      getProp status "status" = inr state /\
      strictEqStr state "PENDING" = false.
Proof.
  induction fuel as [|fuel IH]; intros w status w' H; [discriminate H |].
  destruct (toString jobId) as [e|id] eqn:Hid.
  { rewrite (poll_unrendered this (S fuel) jobId e w Hid) in H. discriminate H. }
  rewrite (poll_turn this jobId id Hid) in H. cbn zeta in H.
  destruct (settle StatusCheckError inr (server w (served w))) as [data|e|] eqn:Hs;
    try discriminate H.
  apply settle_returns_inv in Hs as (data' & Ha & [= <-]).
  destruct (getProp data' "status") as [e|state] eqn:Hst; [discriminate H |].
  destruct (strictEqStr state "PENDING") eqn:Hp.
  - apply IH in H as (Hsrv & k & state' & Hk & Hle & Hans & Hst' & Hp').
    cbn [record fetched server served] in *. split; [exact Hsrv |].
    exists k, state'.
    split; [exact Hk |]. split; [lia |]. split; [exact Hans |].
    split; [exact Hst' | exact Hp'].
  - injection H as <- <-. cbn [record fetched server served]. split; [reflexivity |].
    exists (served w), state.
    split; [reflexivity |]. split; [lia |]. split; [exact Ha |].
    split; [exact Hst | exact Hp].
Qed.

Lemma strictEqStr_true (v : Value) (s : string) :
  strictEqStr v s = true -> v = VJson (JStr s).
Proof.
  destruct v as [|[| b | repr | s' | elems | fields]]; try discriminate.
  cbn [strictEqStr]. now intros ->%String.eqb_eq.
Qed.

(** X7.  Whatever the server does and whatever the loop bound: when a parse
    returns a result, the upload was accepted, the answer before the last
    one was a status answer reporting exactly SUCCESS, and the result is
    the parsed body of the last answer. *)
Theorem parseFile_returns_only_after_success (this : LlamaParse) (fuel : nat)
    (file : Blob) (w : World) (result : JSON) :
  fst (parseFile this fuel file w) = Returns result ->
  exists up k status,
    answers_with (server w (served w)) up /\
    served w < k /\
    answers_with (server w k) status /\ reports status "SUCCESS" /\
    answers_with (server w (S k)) result /\
    served (snd (parseFile this fuel file w)) = S (S k).
Proof.
  destruct (parseFile this fuel file w) as [o w'] eqn:Hrun. cbn [fst snd].
  intros ->. unfold parseFile in Hrun.
  apply bind_returns_inv in Hrun as (jobId & w1 & Hup & Hrun).
  rewrite uploadFile_run in Hup. injection Hup as Hup <-.
  apply settle_returns_inv in Hup as (up & Hup & _).
  apply bind_returns_inv in Hrun as (status & w2 & Hpoll & Hrun).
  apply poll_returns_inv in Hpoll as (Hsrv & k & state & Hk & Hle & Hans & Hst & _).
  cbn [fetched server served] in Hsrv, Hle, Hans.
  apply bind_returns_inv in Hrun as (state' & w3 & Hlift & Hrun).
  rewrite Hst in Hlift. injection Hlift as <- <-.
  destruct (strictEqStr state "SUCCESS") eqn:Hok; cbn [negb] in Hrun.
  - destruct (toString jobId) as [e|id] eqn:Hid.
    { rewrite (getMarkdownResult_unrendered this jobId e w2 Hid) in Hrun.
      discriminate Hrun. }
    rewrite (getMarkdownResult_run this jobId id w2 Hid) in Hrun.
    injection Hrun as Hres <-.
    apply settle_returns_inv in Hres as (data & Hres & [= <-]).
    rewrite Hsrv, Hk in Hres.
    exists up, k, status.
    split; [exact Hup |]. split; [lia |]. split; [exact Hans |].
    split; [unfold reports; rewrite Hst; now apply strictEqStr_true in Hok as -> |].
    split; [exact Hres |]. cbn [fetched served]. now rewrite Hk.
  - apply bind_returns_inv in Hrun as (error & w4 & _ & Hrun).
    apply bind_returns_inv in Hrun as (text & w5 & _ & Hrun). discriminate Hrun.
Qed.

Lemma parseFile_returns_only_after_success_witness :
  exists up k status,
    answers_with (twicePending 0) up /\
    0 < k /\
    answers_with (twicePending k) status /\ reports status "SUCCESS" /\
    answers_with (twicePending (S k)) sampleResult /\
    served (snd (parseFile sampleClient 3 [] (boot twicePending))) = S (S k).
Proof.
  apply (parseFile_returns_only_after_success sampleClient 3 [] (boot twicePending)
           sampleResult).
  reflexivity.
Defined.

(** ** What each request carries *)

(** X8.  Every request of a parse, whatever the server does, carries the
    header record the client was constructed with. *)
Theorem parseFile_requests_carry_headers (this : LlamaParse) (fuel : nat)
    (file : Blob) (w : World) :
  exists t,
    trace (snd (parseFile this fuel file w)) = trace w ++ t /\
    Forall (carries (this_headers this)) t.
Proof.
  destruct (parseFile_every_run this fuel file w) as (t & Ht & Hjob & Hbad & Hnone).
  eexists. split; [exact Ht |]. constructor; [reflexivity |].
  destruct (fst (uploadFile this file w)) as [jobId|e|] eqn:Hup.
  - destruct (toString jobId) as [e|id] eqn:Hid.
    { rewrite (Hbad jobId e eq_refl Hid). constructor. }
    destruct (Hjob jobId id eq_refl Hid) as [Hall _].
    apply (Forall_impl _ _ _ Hall). intros [u init a | ms]; cbn [for_job carries].
    + now intros [_ ->].
    + trivial.
  - rewrite Hnone by reflexivity. constructor.
  - rewrite Hnone by reflexivity. constructor.
Qed.

(** X9.  A client constructed from an API key, without headers of the caller,
    sends the bearer authorization made from that key and
    [accept: application/json] on every request of every parse. *)
Theorem constructed_client_authorizes_requests (key : string) (base : option string)
    (fuel : nat) (file : Blob) (w : World) :
  key <> "" ->
  exists client,
    construct {| apiKey := Some key; baseUrl := base; headers := None |} = inr client /\
    exists t,
      trace (snd (parseFile client fuel file w)) = trace w ++ t /\
      Forall (authorized key) t.
Proof.
  intros Hne. eexists. split.
  { apply (construct_succeeds _ key); [reflexivity | exact Hne]. }
  cbn [headers ownEnumerable baseUrl]. unfold spreadOver.
  rewrite (left_id_L ∅ (∪)).
  match goal with |- context [parseFile ?c _ _ _] => set (client := c) end.
  destruct (parseFile_every_run client fuel file w) as (t & Ht & Hjob & Hbad & Hnone).
  assert (Hdef : forall init, init_headers init = defaultHeaders key ->
            init_headers init !! "Authorization" = Some (PStr ("Bearer " +:+ key)) /\
            init_headers init !! "accept" = Some (PStr "application/json")).
  { intros init ->. unfold defaultHeaders. split.
    - apply lookup_insert_eq.
    - rewrite lookup_insert_ne by discriminate. apply lookup_insert_eq. }
  eexists. split; [exact Ht |]. constructor; [now apply Hdef |].
  destruct (fst (uploadFile client file w)) as [jobId|e|] eqn:Hup.
  - destruct (toString jobId) as [e|id] eqn:Hid.
    { rewrite (Hbad jobId e eq_refl Hid). constructor. }
    destruct (Hjob jobId id eq_refl Hid) as [Hall _].
    apply (Forall_impl _ _ _ Hall). intros [u init a | ms]; cbn [for_job authorized].
    + intros [_ ->]. now apply Hdef.
    + trivial.
  - rewrite Hnone by reflexivity. constructor.
  - rewrite Hnone by reflexivity. constructor.
Qed.

Lemma constructed_client_authorizes_requests_witness :
  exists client,
    construct {| apiKey := Some "llx-key"; baseUrl := None; headers := None |}
      = inr client /\
    exists t,
      trace (snd (parseFile client 3 [] (boot twicePending))) = t /\
      Forall (authorized "llx-key") t.
Proof.
  apply (constructed_client_authorizes_requests "llx-key" None 3 [] (boot twicePending)).
  discriminate.
Defined.

(** X10.  [uploadFile] makes one request whatever the answer: a POST of
    [{baseUrl}/upload] whose form holds the file under the name [file],
    with the client's headers. *)
Theorem uploadFile_request (this : LlamaParse) (file : Blob) (w : World) :
  exists init,
    trace (snd (uploadFile this file w)) =
      trace w ++ [EFetch (this_baseUrl this +:+ "/upload") init (server w (served w))] /\
    effectiveMethod init = "POST" /\
    init_body init = Some [("file", file)] /\
    init_headers init = this_headers this /\
    served (snd (uploadFile this file w)) = S (served w).
Proof.
  rewrite uploadFile_run. exists (uploadInit this file). repeat split.
Qed.

(** X11.  [checkStatus] makes one request whatever the answer: a GET, without a
    body, of [{baseUrl}/job/{j}] with the client's headers. *)
Theorem checkStatus_request (this : LlamaParse) (j : string) (w : World) :
  exists init,
    trace (snd (checkStatus this (VJson (JStr j)) w)) =
      trace w ++ [EFetch (this_baseUrl this +:+ "/job/" +:+ j) init
                    (server w (served w))] /\
    effectiveMethod init = "GET" /\
    init_body init = None /\
    init_headers init = this_headers this /\
    served (snd (checkStatus this (VJson (JStr j)) w)) = S (served w).
Proof.
  rewrite (checkStatus_run this (VJson (JStr j)) j w eq_refl).
  exists (getInit this). repeat split.
Qed.

(** ** The three forms of caller headers *)

(** X12.  A plain record of the caller is merged name by name: a name the
    caller gives carries the caller's value, every other name keeps the
    default, so the caller can replace a default but never remove one. *)
Theorem construct_record_merges (key : string) (base : option string)
    (r : gmap string string) :
  key <> "" ->
  exists client,
    construct {| apiKey := Some key; baseUrl := base;
                 headers := Some (HeadersRecord r) |} = inr client /\
    forall name,
      this_headers client !! name =
        match r !! name with
        | Some value => Some (PStr value)
        | None => defaultHeaders key !! name
        end.
Proof.
  intros Hne. eexists. split.
  { apply (construct_succeeds _ key); [reflexivity | exact Hne]. }
  intros name. cbn [this_headers headers]. apply spread_record_lookup.
Qed.

Lemma construct_record_merges_witness :
  exists client,
    construct {| apiKey := Some "k"; baseUrl := None;
                 headers := Some (HeadersRecord
                                    (<["Authorization" := "Custom token"]>
                                       (<["x-trace" := "1"]> ∅))) |} = inr client /\
    this_headers client !! "Authorization" = Some (PStr "Custom token") /\
    this_headers client !! "x-trace" = Some (PStr "1") /\
    this_headers client !! "accept" = Some (PStr "application/json").
Proof.
  destruct (construct_record_merges "k" None
              (<["Authorization" := "Custom token"]> (<["x-trace" := "1"]> ∅)))
    as (client & Hc & Hmerge); [discriminate |].
  exists client. split; [exact Hc |].
  rewrite !Hmerge. repeat split; vm_compute; reflexivity.
Defined.

(** The decimal name of an index does not start with a character that is
    not a digit. *)
Lemma pretty_N_go_head (c : ascii) :
  (forall d, pretty_N_char d <> c) ->
  forall x s, (forall rest, s <> String c rest) ->
  forall rest, pretty_N_go x s <> String c rest.
Proof.
  intros Hc x. induction (N.lt_wf_0 x) as [x _ IH]. intros s Hs rest.
  assert (x = 0 \/ 0 < x)%N as [-> | Hpos] by lia.
  - rewrite pretty_N_go_0. apply Hs.
  - rewrite pretty_N_go_step by exact Hpos. apply IH.
    + now apply N.div_lt.
    + intros rest' [= E _]. now apply Hc in E.
Qed.

Lemma pretty_nat_head (c : ascii) (i : nat) (rest : string) :
  (forall d, pretty_N_char d <> c) -> c <> "0"%char ->
  pretty i <> String c rest.
Proof.
  intros Hc H0. unfold pretty, pretty_nat, pretty, pretty_N.
  destruct (decide (N.of_nat i = 0%N)).
  - intros [= E _]. congruence.
  - apply pretty_N_go_head; [exact Hc | discriminate].
Qed.

Lemma letter_not_digit (c : ascii) :
  (c = "A" \/ c = "a")%char -> forall d, pretty_N_char d <> c.
Proof.
  intros [-> | ->] d; unfold pretty_N_char; repeat case_match; discriminate.
Qed.

Lemma indexProps_names (i : nat) (pairs : list (string * string)) (name : string) :
  is_Some (indexProps i pairs !! name) -> exists j : nat, name = pretty j.
Proof.
  revert i. induction pairs as [|[n v] pairs IH]; intros i; cbn [indexProps].
  - rewrite lookup_empty. now intros [? [=]].
  - destruct (decide (pretty i = name)) as [<- | Hne].
    + intros _. now exists i.
    + rewrite lookup_insert_ne by exact Hne. apply IH.
Qed.

(** X13.  The array form of caller headers never replaces or removes a default
    header, whatever pairs it holds: the spread adds decimal index names
    only, so [Authorization] and [accept] keep their default values. *)
Theorem construct_pairs_keep_defaults (key : string) (base : option string)
    (pairs : list (string * string)) :
  key <> "" ->
  exists client,
    construct {| apiKey := Some key; baseUrl := base;
                 headers := Some (HeadersPairs pairs) |} = inr client /\
    this_headers client !! "Authorization" = Some (PStr ("Bearer " +:+ key)) /\
    this_headers client !! "accept" = Some (PStr "application/json") /\
    forall name, is_Some (this_headers client !! name) ->
      name = "Authorization" \/ name = "accept" \/ exists j : nat, name = pretty j.
Proof.
  intros Hne. eexists. split.
  { apply (construct_succeeds _ key); [reflexivity | exact Hne]. }
  cbn [this_headers headers ownEnumerable]. unfold spreadOver.
  assert (Hfree : forall c rest, (c = "A" \/ c = "a")%char ->
            indexProps 0 pairs !! String c rest = None).
  { intros c rest Hc. apply eq_None_not_Some. intros [j Hj]%indexProps_names.
    symmetry in Hj. revert Hj. apply pretty_nat_head.
    - now apply letter_not_digit.
    - destruct Hc as [-> | ->]; discriminate. }
  split; [| split].
  - rewrite lookup_union_r by (apply Hfree; now left). apply lookup_insert_eq.
  - rewrite lookup_union_r by (apply Hfree; now right).
    unfold defaultHeaders. rewrite lookup_insert_ne by discriminate.
    apply lookup_insert_eq.
  - intros name [v Hv]. apply lookup_union_Some_raw in Hv as [Hv | [_ Hv]].
    + right. right. apply (indexProps_names 0 pairs). now exists v.
    + unfold defaultHeaders in Hv.
      destruct (decide ("Authorization" = name)) as [<- | H1]; [now left |].
      rewrite lookup_insert_ne in Hv by exact H1.
      destruct (decide ("accept" = name)) as [<- | H2]; [right; now left |].
      rewrite lookup_insert_ne in Hv by exact H2. now rewrite lookup_empty in Hv.
Qed.

Lemma construct_pairs_keep_defaults_witness :
  exists client,
    construct {| apiKey := Some "k"; baseUrl := None;
                 headers := Some (HeadersPairs [("accept", "text/plain");
                                                ("Authorization", "Custom token")]) |}
      = inr client /\
    this_headers client !! "Authorization" = Some (PStr "Bearer k") /\
    this_headers client !! "accept" = Some (PStr "application/json").
Proof.
  destruct (construct_pairs_keep_defaults "k" None
              [("accept", "text/plain"); ("Authorization", "Custom token")])
    as (client & Hc & Ha & Hb & _); [discriminate |].
  exists client. repeat split; assumption.
Defined.

(** X14.  A [Headers] instance given as caller headers changes nothing: the
    client is the one constructed without caller headers. *)
Theorem construct_headers_instance_ignored (key : string) (base : option string)
    (entries : list (string * string)) :
  key <> "" ->
  exists client,
    construct {| apiKey := Some key; baseUrl := base;
                 headers := Some (HeadersObject entries) |} = inr client /\
    construct {| apiKey := Some key; baseUrl := base; headers := None |} = inr client /\
    this_headers client = defaultHeaders key.
Proof.
  intros Hne. eexists. split; [| split].
  - apply (construct_succeeds _ key); [reflexivity | exact Hne].
  - rewrite (construct_succeeds _ key); [| reflexivity | exact Hne]. reflexivity.
  - cbn [this_headers headers]. apply spread_headers_object.
Qed.

Lemma construct_headers_instance_ignored_witness :
  exists client,
    construct {| apiKey := Some "k"; baseUrl := None;
                 headers := Some (HeadersObject [("Authorization", "Custom token")]) |}
      = inr client /\
    construct {| apiKey := Some "k"; baseUrl := None; headers := None |} = inr client /\
    this_headers client = defaultHeaders "k".
Proof.
  apply (construct_headers_instance_ignored "k" None [("Authorization", "Custom token")]).
  discriminate.
Defined.

(** ** The base URL *)

(** X15.  A non-empty base URL of the caller is used as it is: every request of
    every parse of the constructed client goes to a URL that extends it. *)
Theorem construct_custom_baseUrl (key base : string) (hs : option HeadersInit)
    (fuel : nat) (file : Blob) (w : World) :
  key <> "" -> base <> "" ->
  exists client,
    construct {| apiKey := Some key; baseUrl := Some base; headers := hs |}
      = inr client /\
    this_baseUrl client = base /\
    exists t,
      trace (snd (parseFile client fuel file w)) = trace w ++ t /\
      Forall (targets base) t.
Proof.
  intros Hkey Hbase. eexists. split.
  { apply (construct_succeeds _ key); [reflexivity | exact Hkey]. }
  cbn [baseUrl]. rewrite (proj2 (truthy_Some base) Hbase). cbn [default].
  match goal with |- context [parseFile ?c _ _ _] => set (client := c) end.
  split; [reflexivity |].
  destruct (parseFile_every_run client fuel file w) as (t & Ht & Hjob & Hbad & Hnone).
  eexists. split; [exact Ht |]. constructor; [now exists "/upload" |].
  destruct (fst (uploadFile client file w)) as [jobId|e|] eqn:Hup.
  - destruct (toString jobId) as [e|id] eqn:Hid.
    { rewrite (Hbad jobId e eq_refl Hid). constructor. }
    destruct (Hjob jobId id eq_refl Hid) as [Hall _].
    apply (Forall_impl _ _ _ Hall). intros [u init a | ms]; cbn [for_job targets].
    + intros [[-> | ->] _]; eexists; reflexivity.
    + trivial.
  - rewrite Hnone by reflexivity. constructor.
  - rewrite Hnone by reflexivity. constructor.
Qed.

Lemma construct_custom_baseUrl_witness :
  exists client,
    construct {| apiKey := Some "k"; baseUrl := Some "http://localhost:8080/";
                 headers := None |} = inr client /\
    this_baseUrl client = "http://localhost:8080/" /\
    exists t,
      trace (snd (parseFile client 3 [] (boot twicePending))) = t /\
      Forall (targets "http://localhost:8080/") t.
Proof.
  apply (construct_custom_baseUrl "k" "http://localhost:8080/" None 3 []
           (boot twicePending)); discriminate.
Defined.

(** ** Answers that are not what the client expects *)

(** X16.  [uploadFile] does not validate a 2xx body.  A body that is not JSON
    makes it throw the parser's syntax error, the JSON value [null] a type
    error; an object without [id], or any other JSON value, makes it
    return [undefined] as if it were a job id. *)
Theorem uploadFile_unexpected_body (this : LlamaParse) (file : Blob) (w : World)
    (r : Response) :
  server w (served w) = Some r -> is2xx r ->
  (body r = None -> fst (uploadFile this file w) = Throws SyntaxError) /\
  (body r = Some JNull -> fst (uploadFile this file w) = Throws TypeError) /\
  (forall data, body r = Some data -> data <> JNull ->
     (forall fields, data = JObj fields -> field "id" fields = VUndefined) ->
     fst (uploadFile this file w) = Returns VUndefined).
Proof.
  intros Hr Hok%ok_true_iff. rewrite uploadFile_run, Hr. cbn [fst settle].
  rewrite Hok. split; [| split].
  - now intros ->.
  - now intros ->.
  - intros data -> Hnull Hobj.
    destruct data as [| b | repr | s | elems | fields]; cbn [getProp];
      try reflexivity; [congruence |].
    now rewrite (Hobj fields eq_refl).
Qed.

Lemma uploadFile_unexpected_body_witness :
  fst (uploadFile sampleClient []
         (boot (script [{| status := 200; statusText := "OK"; body := None |}])))
    = Throws SyntaxError /\
  fst (uploadFile sampleClient [] (boot (script [okJson JNull]))) = Throws TypeError /\
  fst (uploadFile sampleClient [] (boot (script [okJson (jobJson "PENDING")])))
    = Returns VUndefined.
Proof.
  assert (H2 : forall body, is2xx {| status := 200; statusText := "OK"; body := body |})
    by (intros; unfold is2xx; simpl; lia).
  split; [| split].
  - apply (proj1 (uploadFile_unexpected_body sampleClient []
                    (boot (script [{| status := 200; statusText := "OK";
                                      body := None |}])) _ eq_refl (H2 None))).
    reflexivity.
  - apply (proj1 (proj2 (uploadFile_unexpected_body sampleClient []
                           (boot (script [okJson JNull])) _ eq_refl (H2 (Some JNull))))).
    reflexivity.
  - apply (proj2 (proj2 (uploadFile_unexpected_body sampleClient []
                           (boot (script [okJson (jobJson "PENDING")])) _ eq_refl
                           (H2 (Some (jobJson "PENDING")))))
             (jobJson "PENDING")); [reflexivity | discriminate |].
    intros fields [= <-]. reflexivity.
Defined.

(** X17.  No operation catches a request that fails at the network level: each
    one has made its request and throws what [fetch] rejected with. *)
Theorem operations_pass_on_network_failure (this : LlamaParse) (file : Blob)
    (j : string) (fuel : nat) (w : World) :
  server w (served w) = None ->
  fst (uploadFile this file w) = Throws TypeError /\
  fst (checkStatus this (VJson (JStr j)) w) = Throws TypeError /\
  fst (getMarkdownResult this (VJson (JStr j)) w) = Throws TypeError /\
  fst (parseFile this fuel file w) = Throws TypeError /\
  trace (snd (parseFile this fuel file w)) =
    trace w ++ [EFetch (uploadUrl this) (uploadInit this file) None].
Proof.
  intros Hdown.
  assert (E : parseFile this fuel file w =
              (Throws TypeError, fetched (uploadUrl this) (uploadInit this file) w)).
  { unfold parseFile. unfold bind at 1. now rewrite uploadFile_run, Hdown. }
  rewrite E, uploadFile_run, (checkStatus_run this (VJson (JStr j)) j w eq_refl),
    (getMarkdownResult_run this (VJson (JStr j)) j w eq_refl), Hdown.
  cbn [fst snd fetched trace settle]. now rewrite Hdown.
Qed.

Lemma operations_pass_on_network_failure_witness :
  fst (parseFile sampleClient 3 [] (boot (script []))) = Throws TypeError /\
  fst (checkStatus sampleClient (VJson (JStr "job-1")) (boot (script [])))
    = Throws TypeError.
Proof.
  destruct (operations_pass_on_network_failure sampleClient [] "job-1" 3
              (boot (script [])) eq_refl) as (_ & Hc & _ & Hp & _).
  split; assumption.
Defined.

(** [n] pending answers take [n] turns and leave the rest of the fuel. *)
Lemma poll_skip_pending (this : LlamaParse) jobId id n :
  toString jobId = inr id ->
  forall fuel w,
    (forall k, k < n -> exists data,
        answers_with (server w (served w + k)) data /\ reports data "PENDING") ->
    poll this (n + fuel) jobId w =
      poll this fuel jobId
        {| server := server w;
           served := served w + n;
           trace := trace w ++ rounds this id (server w) (served w) n |}.
Proof.
  intros Hid. induction n as [|n IH]; intros fuel w Hpend.
  - cbn [Nat.add rounds]. rewrite app_nil_r, Nat.add_0_r. now destruct w.
  - destruct (Hpend 0) as (data & Ha & Hp); [lia |].
    rewrite Nat.add_0_r in Ha. cbn [Nat.add].
    rewrite (poll_step this jobId id Hid _ _ data _ Ha Hp). cbn zeta. cbn [strictEqStr].
    change (String.eqb "PENDING" "PENDING") with true. cbn iota.
    rewrite IH; cbn [record fetched server served trace].
    + f_equal. f_equal; [lia |]. cbn [rounds]. now rewrite <- !app_assoc.
    + intros k Hk. destruct (Hpend (S k)) as (d & Hd & Hr); [lia |].
      exists d. split; [| exact Hr]. now rewrite Nat.add_succ_comm.
Qed.

(** X18.  A 2xx status answer that the client cannot read ends the parse
    with a runtime error, not with one of the client's own; the job id
    converts to the string [id].  A body that is not JSON: the syntax
    error, the status request being the last event.  The JSON value
    [null]: a type error, raised by the loop's test after the timer has
    run. *)
Theorem parseFile_unreadable_status (this : LlamaParse) (fuel : nat) (file : Blob)
    (w : World) (jobId : Value) (id : string) (n : nat) (r : Response) :
  pending_for w jobId id n ->
  server w (served w + 1 + n) = Some r -> is2xx r ->
  n < fuel ->
  (body r = None ->
     fst (parseFile this fuel file w) = Throws SyntaxError /\
     trace (snd (parseFile this fuel file w)) =
       trace w
         ++ EFetch (uploadUrl this) (uploadInit this file) (server w (served w))
         :: rounds this id (server w) (S (served w)) n
         ++ [EFetch (statusUrl this id) (getInit this) (Some r)]) /\
  (body r = Some JNull ->
     fst (parseFile this fuel file w) = Throws TypeError /\
     trace (snd (parseFile this fuel file w)) =
       trace w
         ++ EFetch (uploadUrl this) (uploadInit this file) (server w (served w))
         :: rounds this id (server w) (S (served w)) n
         ++ [EFetch (statusUrl this id) (getInit this) (Some r); ESleep 1000]).
Proof.
  intros (((up & Hup & Hupid) & Hid) & Hpend) Hr Hok%ok_true_iff Hfuel.
  assert (Hr' : server w (S (served w) + n) = Some r)
    by now replace (S (served w) + n) with (served w + 1 + n) by lia.
  rewrite (parseFile_accepted this fuel file w up jobId Hup Hupid).
  replace fuel with (n + S (fuel - n - 1)) by lia.
  unfold bind.
  rewrite (poll_skip_pending this jobId id n Hid) by now apply pending_for_shift.
  rewrite (poll_turn this jobId id Hid). cbn [fetched server served trace]. cbn zeta.
  rewrite Hr'. cbn [settle]. rewrite Hok.
  split; intros ->; cbn [getProp fst snd record fetched server served trace];
    rewrite ?Hr'.
  - split; [reflexivity |]. now rewrite <- !app_assoc.
  - split; [reflexivity |]. now rewrite <- !app_assoc.
Qed.

Lemma parseFile_unreadable_status_witness :
  fst (parseFile sampleClient 1 []
         (boot (script [okJson (JObj [("id", JStr "job-1")]); okJson JNull])))
    = Throws TypeError /\
  trace (snd (parseFile sampleClient 1 []
                (boot (script [okJson (JObj [("id", JStr "job-1")]); okJson JNull])))) =
    [EFetch "https://example.test/api/upload" (uploadInit sampleClient [])
       (Some (okJson (JObj [("id", JStr "job-1")])));
     EFetch "https://example.test/api/job/job-1" (getInit sampleClient)
       (Some (okJson JNull));
     ESleep 1000].
Proof.
  apply (proj2 (parseFile_unreadable_status sampleClient 1 []
                  (boot (script [okJson (JObj [("id", JStr "job-1")]); okJson JNull]))
                  (VJson (JStr "job-1")) "job-1" 0 (okJson JNull)
                  ltac:(split;
                        [split; [now apply script_accepted | reflexivity]
                        | intros k Hk; lia])
                  eq_refl
                  ltac:(unfold is2xx; simpl; lia)
                  ltac:(lia))).
  reflexivity.
Defined.
